(** * pinit: extraction and publishing pipeline

    A shallow embedding of [src/pinit/extractor.py], [src/main.py] and
    [src/pinit/cli.py].

    - Python [str] is a list of Unicode code points.
    - The values that flow through the program are the values
      [json.loads] produces (None, bool, int, float, str, list, dict);
      one inductive type [json] stands for them.
    - Python exceptions are values of [exn]; a computation that may raise
      returns an [outcome].
    - The language model, the Pinboard service, the process environment and
      the standard library's JSON decoder are collaborators of the program:
      the program is parametrised by a record [Env] of them, and the calls
      made to the two services are recorded in a trace of events.
    - A decoder [json_loads] for JSON text is defined as well, so that the
      pipeline can be run on concrete model responses. *)

From Stdlib Require Import NArith ZArith String Ascii.
From stdpp Require Import gmap list.

#[local] Set Warnings "-register-all".

(** ** Python strings *)

(** A code point, and a [str]: a sequence of code points. *)
Abbreviation char := N (only parsing).
Abbreviation str := (list N) (only parsing).

(** The [str] written by an ASCII string literal of the source. *)
Definition lit (s : string) : str := N_of_ascii <$> list_ascii_of_string s.

Arguments lit : simpl never.

(** [str.isspace] on one code point: the characters [str.strip()] removes
    when it is called without an argument. *)
Definition isspace (c : char) : bool :=
  ((9 <=? c) && (c <=? 13) || (28 <=? c) && (c <=? 32)
   || (c =? 133) || (c =? 160) || (c =? 5760)
   || (8192 <=? c) && (c <=? 8202)
   || (c =? 8232) || (c =? 8233) || (c =? 8239) || (c =? 8287)
   || (c =? 12288))%N.

Fixpoint lstrip (s : str) : str :=
  match s with
  | c :: s' => if isspace c then lstrip s' else s
  | [] => []
  end.

Definition rstrip (s : str) : str := reverse (lstrip (reverse s)).

(** [s.strip()] *)
Definition strip (s : str) : str := rstrip (lstrip s).

(** [s.startswith(p)] *)
Fixpoint startswith (p s : str) : bool :=
  match p, s with
  | [], _ => true
  | a :: p', b :: s' => (a =? b)%N && startswith p' s'
  | _ :: _, [] => false
  end.

(** Decimal rendering of a natural number, as [%d] does. *)
Fixpoint uint_digits (d : Decimal.uint) : str :=
  match d with
  | Decimal.Nil => []
  | Decimal.D0 d => 48%N :: uint_digits d
  | Decimal.D1 d => 49%N :: uint_digits d
  | Decimal.D2 d => 50%N :: uint_digits d
  | Decimal.D3 d => 51%N :: uint_digits d
  | Decimal.D4 d => 52%N :: uint_digits d
  | Decimal.D5 d => 53%N :: uint_digits d
  | Decimal.D6 d => 54%N :: uint_digits d
  | Decimal.D7 d => 55%N :: uint_digits d
  | Decimal.D8 d => 56%N :: uint_digits d
  | Decimal.D9 d => 57%N :: uint_digits d
  end.

Definition str_of_nat (n : nat) : str := uint_digits (Nat.to_uint n).

(** ** Values and exceptions *)

(** The Python values [json.loads] returns.  A float is kept as the text it
    was read from ([float(text)] in Python); a dict is a finite map. *)
Inductive json : Type :=
| JNull
| JBool (b : bool)
| JInt (z : Z)
| JFloat (text : str)
| JStr (s : str)
| JArr (l : list json)
| JObj (m : gmap str json).

(** The exceptions the program meets.  [JSONDecodeError] is a subclass of
    [ValueError]; [SystemExit] is not a subclass of [Exception];
    [ExternalError] stands for whatever the llm and pinboard libraries
    raise themselves. *)
Inductive exn : Type :=
| JSONDecodeError (msg : str) (doc : str) (pos : nat)
| ValueError (msg : str)
| KeyError (key : str)
| TypeError
| AttributeError
| RecursionError
| ExternalError (msg : str)
| SystemExit (code : Z).

Inductive outcome (A : Type) : Type :=
| Return (a : A)
| Raise (e : exn).
Arguments Return {A} a.
Arguments Raise {A} e.

Definition isinstance_ValueError (e : exn) : bool :=
  match e with JSONDecodeError _ _ _ | ValueError _ => true | _ => false end.

Definition isinstance_Exception (e : exn) : bool :=
  match e with SystemExit _ => false | _ => true end.

(** [doc.count('\n', 0, pos)] *)
Definition count_newlines (doc : str) (pos : nat) : nat :=
  length (filter (λ c, c = 10%N) (take pos doc)).

(** [pos - doc.rfind('\n', 0, pos)]: one more than the number of characters
    after the last newline before [pos]. *)
Fixpoint colno_from (s : str) (col : nat) : nat :=
  match s with
  | [] => col
  | c :: s' => colno_from s' (if (c =? 10)%N then 1 else S col)
  end.

(** [str(e)] for a [JSONDecodeError]: the message its constructor builds,
    ['%s: line %d column %d (char %d)']. *)
Definition JSONDecodeError_str (msg doc : str) (pos : nat) : str :=
  msg ++ lit ": line " ++ str_of_nat (S (count_newlines doc pos))
      ++ lit " column " ++ str_of_nat (colno_from (take pos doc) 1)
      ++ lit " (char " ++ str_of_nat pos ++ lit ")".

(** ** The JSON decoder

    [json.loads] as CPython's [json.decoder] and its scanner implement it
    for a [str] argument and default options: objects, arrays, strings with
    escapes and surrogate pairs, numbers, [true], [false], [null] and the
    constants [NaN], [Infinity] and [-Infinity].  The scanner works on the
    text left to read and on the index reached, which the diagnostics
    report.  An integer of more digits than the interpreter's limit for
    [int(text)], 4300 by default, is refused with [ValueError], as the
    conversion of the scanner does.  The interpreter's recursion limit is
    not modelled. *)

Module Decoder.

(** The result of scanning a term: the value with the text left and the
    index after it, a failure with its message and position, an integer of
    more digits than [int] converts, or nesting deeper than the recursion
    budget. *)
Inductive scan (A : Type) : Type :=
| Ok (a : A) (rest : str) (idx : nat)
| Fail (msg : str) (pos : nat)
| Exceeds (digits : nat)
| TooDeep.
Arguments Ok {A} a rest idx.
Arguments Fail {A} msg pos.
Arguments Exceeds {A} digits.
Arguments TooDeep {A}.

Definition scan_map {A B} (f : A → B) (r : scan A) : scan B :=
  match r with
  | Ok a rest idx => Ok (f a) rest idx
  | Fail msg pos => Fail msg pos
  | Exceeds digits => Exceeds digits
  | TooDeep => TooDeep
  end.

(** The whitespace of JSON: space, tab, line feed, carriage return. *)
Definition is_ws (c : char) : bool :=
  ((c =? 32) || (c =? 9) || (c =? 10) || (c =? 13))%N.

Fixpoint skip_ws (s : str) (idx : nat) : str * nat :=
  match s with
  | c :: s' => if is_ws c then skip_ws s' (S idx) else (s, idx)
  | [] => (s, idx)
  end.

Definition is_digit (c : char) : bool := ((48 <=? c) && (c <=? 57))%N.

Definition hex_digit (c : char) : option N :=
  (if (48 <=? c) && (c <=? 57) then Some (c - 48)
   else if (97 <=? c) && (c <=? 102) then Some (c - 87)
   else if (65 <=? c) && (c <=? 70) then Some (c - 55)
   else None)%N.

(** Four hexadecimal digits of a [\uXXXX] escape. *)
Definition hex4 (a b c d : char) : option N :=
  x ← hex_digit a; y ← hex_digit b; z ← hex_digit c; w ← hex_digit d;
  Some (((x * 16 + y) * 16 + z) * 16 + w)%N.

Definition is_high_surrogate (c : N) : bool := ((55296 <=? c) && (c <=? 56319))%N.
Definition is_low_surrogate (c : N) : bool := ((56320 <=? c) && (c <=? 57343))%N.
Definition join_surrogates (hi lo : N) : N :=
  (65536 + N.lor (N.shiftl (hi - 55296) 10) (lo - 56320))%N.

(** The character a one-letter escape stands for. *)
Definition backslash (c : char) : option char :=
  (if c =? 34 then Some 34 else if c =? 92 then Some 92
   else if c =? 47 then Some 47 else if c =? 98 then Some 8
   else if c =? 102 then Some 12 else if c =? 110 then Some 10
   else if c =? 114 then Some 13 else if c =? 116 then Some 9
   else None)%N.

Definition unterminated : str := lit "Unterminated string starting at".
Definition invalid_uXXXX : str := lit "Invalid \uXXXX escape".

(** [scanstring]: [s] is the text after the opening quote, at index [idx];
    [begin] is the index of the opening quote; [acc] holds the characters
    read so far, last first. *)
Fixpoint scanstring (s : str) (idx begin : nat) (acc : str) {struct s} : scan str :=
  match s with
  | [] => Fail unterminated begin
  | c :: s1 =>
      if (c =? 34)%N then Ok (reverse acc) s1 (S idx)
      else if (c =? 92)%N then
        match s1 with
        | [] => Fail unterminated begin
        | e :: s2 =>
            if (e =? 117)%N then
              match s2 with
              | h1 :: h2 :: h3 :: h4 :: ((_ :: _) as s6) =>
                  match hex4 h1 h2 h3 h4 with
                  | None => Fail invalid_uXXXX (S idx)
                  | Some u =>
                      let lone := scanstring s6 (idx + 6) begin (u :: acc) in
                      if is_high_surrogate u then
                        match s6 with
                        | b :: v :: g1 :: g2 :: g3 :: g4 :: ((_ :: _) as s12) =>
                            if (b =? 92)%N && (v =? 117)%N then
                              match hex4 g1 g2 g3 g4 with
                              | None => Fail invalid_uXXXX (idx + 7)
                              | Some u2 =>
                                  if is_low_surrogate u2
                                  then scanstring s12 (idx + 12) begin
                                         (join_surrogates u u2 :: acc)
                                  else lone
                              end
                            else lone
                        | _ => lone
                        end
                      else lone
                  end
              | _ => Fail invalid_uXXXX (S idx)
              end
            else
              match backslash e with
              | Some c' => scanstring s2 (idx + 2) begin (c' :: acc)
              | None => Fail (lit "Invalid \escape") idx
              end
        end
      else if (c <=? 31)%N then Fail (lit "Invalid control character at") idx
      else scanstring s1 (S idx) begin (c :: acc)
  end.

(** The longest prefix of decimal digits, and what follows it. *)
Fixpoint span_digits (s : str) : str * str :=
  match s with
  | c :: s' =>
      if is_digit c then let '(ds, r) := span_digits s' in (c :: ds, r)
      else ([], s)
  | [] => ([], [])
  end.

(** The integer part of a number: an optional minus sign, then [0] or a
    digit from 1 to 9 followed by digits. *)
Definition match_integer (s : str) : option (str * str) :=
  let '(sign, s1) :=
    match s with
    | c :: s' => if (c =? 45)%N then ([c], s') else ([], s)
    | [] => ([], s)
    end in
  match s1 with
  | d :: s2 =>
      if (d =? 48)%N then Some (sign ++ [d], s2)
      else if is_digit d then
        let '(ds, r) := span_digits s2 in Some (sign ++ d :: ds, r)
      else None
  | [] => None
  end.

(** The fraction: a point followed by at least one digit, if there. *)
Definition match_frac (s : str) : str * str :=
  match s with
  | p :: d :: s' =>
      if (p =? 46)%N && is_digit d
      then let '(ds, r) := span_digits s' in (p :: d :: ds, r)
      else ([], s)
  | _ => ([], s)
  end.

(** The exponent: [e] or [E], an optional sign and at least one digit, if
    there. *)
Definition match_exp (s : str) : str * str :=
  match s with
  | e :: s1 =>
      if (e =? 101)%N || (e =? 69)%N then
        let '(sign, s2) :=
          match s1 with
          | c :: s' => if (c =? 43)%N || (c =? 45)%N then ([c], s') else ([], s1)
          | [] => ([], s1)
          end in
        match span_digits s2 with
        | ([], _) => ([], s)
        | (ds, r) => (e :: sign ++ ds, r)
        end
      else ([], s)
  | [] => ([], s)
  end.

(** [int(text)] for an optional minus sign followed by decimal digits. *)
Definition int_of_digits (ds : str) : Z :=
  fold_left (λ acc c, 10 * acc + Z.of_N (c - 48))%Z ds 0%Z.

Definition parse_int (text : str) : Z :=
  match text with
  | c :: ds => if (c =? 45)%N then (- int_of_digits ds)%Z else int_of_digits text
  | [] => 0%Z
  end.

Definition expecting_value : str := lit "Expecting value".

(** [sys.get_int_max_str_digits()], by default. *)
Definition int_max_str_digits : N := 4300.

(** The number of digits of the text of an integer, its sign aside. *)
Definition count_digits (integer : str) : nat :=
  match integer with
  | c :: ds => if (c =? 45)%N then length ds else length integer
  | [] => 0
  end.

(** The message of the [ValueError] of [int(text)] for a text of [digits]
    digits, more than the limit. *)
Definition exceeds_limit (digits : nat) : str :=
  lit "Exceeds the limit (4300 digits) for integer string conversion: value has "
  ++ str_of_nat digits
  ++ lit " digits; use sys.set_int_max_str_digits() to increase the limit".

(** A number at the head of [s], or the failure of [scan_once].  A number
    with a fraction or an exponent is a float; any other is converted by
    [int], which refuses more digits than the limit. *)
Definition match_number (s : str) (idx : nat) : scan json :=
  match match_integer s with
  | None => Fail expecting_value idx
  | Some (integer, s1) =>
      let '(frac, s2) := match_frac s1 in
      let '(exp, s3) := match_exp s2 in
      let n := length integer + length frac + length exp in
      match frac, exp with
      | [], [] =>
          if (int_max_str_digits <? N.of_nat (count_digits integer))%N
          then Exceeds (count_digits integer)
          else Ok (JInt (parse_int integer)) s3 (idx + n)
      | _, _ => Ok (JFloat (integer ++ frac ++ exp)) s3 (idx + n)
      end
  end.

(** A keyword or constant [kw] at the head of [s]. *)
Definition keyword (kw : string) (v : json) (s : str) (idx : nat)
    (otherwise : scan json) : scan json :=
  if startswith (lit kw) s
  then Ok v (drop (length (lit kw)) s) (idx + length (lit kw))
  else otherwise.

Definition expecting_name : str :=
  lit "Expecting property name enclosed in double quotes".
Definition expecting_colon : str := lit "Expecting ':' delimiter".
Definition expecting_comma : str := lit "Expecting ',' delimiter".

(** [s[idx] == c], false at the end of the text. *)
Definition nextchar_is (c : char) (s : str) : bool :=
match s with
| x :: _ => (x =? c)%N
| [] => false
end.

(** [scan_once] reads one term; [object_loop] reads the pairs of an object
    from a key on, [array_loop] the items of an array from an item on.
    [depth] bounds the calls still allowed. *)
Fixpoint scan_once (depth : nat) (s : str) (idx : nat) : scan json :=
  match depth with
  | 0 => TooDeep
  | S depth =>
      match s with
      | [] => Fail expecting_value idx
      | c :: s1 =>
          if (c =? 34)%N then scan_map JStr (scanstring s1 (S idx) idx [])
          else if (c =? 123)%N then
            let '(s2, i2) := skip_ws s1 (S idx) in
            if nextchar_is 125 s2 then Ok (JObj ∅) (drop 1 s2) (S i2)
            else object_loop depth s2 i2 ∅
          else if (c =? 91)%N then
            let '(s2, i2) := skip_ws s1 (S idx) in
            if nextchar_is 93 s2 then Ok (JArr []) (drop 1 s2) (S i2)
            else array_loop depth s2 i2 []
          else
            keyword "null" JNull s idx
           (keyword "true" (JBool true) s idx
           (keyword "false" (JBool false) s idx
           (match match_number s idx with
            | Fail _ _ =>
                keyword "NaN" (JFloat (lit "NaN")) s idx
               (keyword "Infinity" (JFloat (lit "Infinity")) s idx
               (keyword "-Infinity" (JFloat (lit "-Infinity")) s idx
               (Fail expecting_value idx)))
            | r => r
            end)))
      end
  end
with object_loop (depth : nat) (s : str) (idx : nat) (acc : gmap str json)
    : scan json :=
  match depth with
  | 0 => TooDeep
  | S depth =>
      if nextchar_is 34 s then
        match scanstring (drop 1 s) (S idx) idx [] with
        | Ok key s2 i2 =>
            let '(s3, i3) := skip_ws s2 i2 in
            if nextchar_is 58 s3 then
              let '(s4, i4) := skip_ws (drop 1 s3) (S i3) in
              match scan_once depth s4 i4 with
              | Ok v s5 i5 =>
                  let '(s6, i6) := skip_ws s5 i5 in
                  if nextchar_is 125 s6
                  then Ok (JObj (<[key:=v]> acc)) (drop 1 s6) (S i6)
                  else if nextchar_is 44 s6 then
                    let '(s7, i7) := skip_ws (drop 1 s6) (S i6) in
                    object_loop depth s7 i7 (<[key:=v]> acc)
                  else Fail expecting_comma i6
              | Fail msg pos => Fail msg pos
              | Exceeds digits => Exceeds digits
              | TooDeep => TooDeep
              end
            else Fail expecting_colon i3
        | Fail msg pos => Fail msg pos
        | Exceeds digits => Exceeds digits
        | TooDeep => TooDeep
        end
      else Fail expecting_name idx
  end
with array_loop (depth : nat) (s : str) (idx : nat) (acc : list json)
    : scan json :=
  match depth with
  | 0 => TooDeep
  | S depth =>
      match scan_once depth s idx with
      | Ok v s1 i1 =>
          let '(s2, i2) := skip_ws s1 i1 in
          if nextchar_is 93 s2
          then Ok (JArr (reverse (v :: acc))) (drop 1 s2) (S i2)
          else if nextchar_is 44 s2 then
            let '(s3, i3) := skip_ws (drop 1 s2) (S i2) in
            array_loop depth s3 i3 (v :: acc)
          else Fail expecting_comma i2
      | Fail msg pos => Fail msg pos
      | Exceeds digits => Exceeds digits
      | TooDeep => TooDeep
      end
  end.

(** [JSONDecoder.decode]: one term, with whitespace allowed around it and
    nothing else after it. *)
Definition decode (s : str) : outcome json :=
  let '(s0, i0) := skip_ws s 0 in
  match scan_once (2 * length s + 1) s0 i0 with
  | Ok v s1 i1 =>
      match skip_ws s1 i1 with
      | ([], _) => Return v
      | (_ :: _, i2) => Raise (JSONDecodeError (lit "Extra data") s i2)
      end
  | Fail msg pos => Raise (JSONDecodeError msg s pos)
  | Exceeds digits => Raise (ValueError (exceeds_limit digits))
  | TooDeep => Raise RecursionError
  end.

End Decoder.

(** [json.loads(s)] for a [str] *)
Definition json_loads (s : str) : outcome json :=
  if startswith [65279%N] s
  then Raise (JSONDecodeError
                (lit "Unexpected UTF-8 BOM (decode using utf-8-sig)") s 0)
  else Decoder.decode s.

(** ** Collaborators and effects *)

(** The keyword arguments of one call [pb.posts.add(...)], under the names
    the Pinboard API gives them. *)
Module PostsAdd.
Record t : Type := {
  url : json;
  description : json;
  extended : json;
  tags : json;
  shared : bool;
  toread : bool;
}.
End PostsAdd.

(** [pinboard.Pinboard(token)]: the client is its token ([None] when the
    environment variable is unset). *)
Record Pinboard : Type := { token : option str }.

(** What the program writes to the terminal, by message; the text of a
    message is not modelled.  [OutMissingToken] stands for the five lines
    of [get_api_token]. *)
Inductive output : Type :=
| OutUsage
| OutDumps (bookmark : json)
| OutFailedToAdd
| OutAdded
| OutAddedResult (result : bool)
| OutErrorAdding (e : exn)
| OutJSON (bookmark : json)
| OutPanel (title url description tags : json)
| OutDryRun
| OutMissingToken
| OutSaved
| OutFailedToSave
| OutExtractionError (e : exn)
| OutUnexpectedError (e : exn).

(** The observable steps of a run, in order. *)
Inductive event : Type :=
| Prompt (model prompt system : str)
| Post (pb : Pinboard) (args : PostsAdd.t)
| Print (o : output).

(** What the program is linked against and run with.  The answers of the two
    services may depend on everything that happened before the call. *)
Record Env : Type := {
  (** [json.loads] *)
  loads : str → outcome json;
  (** [llm.get_model(name)]: the exception it raises, if any *)
  get_model : str → option exn;
  (** [model.prompt(prompt, system=system).text()] *)
  response_text : list event → str → str → str → outcome str;
  (** [pb.posts.add] called with keyword arguments: its result, by truth
      value *)
  posts_add : list event → Pinboard → PostsAdd.t → outcome bool;
  (** [os.getenv(name)] *)
  getenv : str → option str;
  (** [rich.json.JSON(data=bookmark)]: the exception it raises, if any *)
  rich_json : json → option exn;
  (** [console.print(...)] of rich: the exception it raises, if any (rich
      parses the text it is given for markup) *)
  console_print : list event → output → option exn;
}.

(** A computation: it reads the trace so far, extends it, and returns or
    raises. *)
Definition M (A : Type) : Type := list event → outcome A * list event.

#[global] Instance M_ret : MRet M := λ A a tr, (Return a, tr).

#[global] Instance M_bind : MBind M := λ A B f c tr,
  match c tr with
  | (Return a, tr') => f a tr'
  | (Raise e, tr') => (Raise e, tr')
  end.

Definition raise {A} (e : exn) : M A := λ tr, (Raise e, tr).

Definition lift {A} (o : outcome A) : M A := λ tr, (o, tr).

Definition emit (ev : event) : M unit := λ tr, (Return tt, tr ++ [ev]).

(** [print(...)] *)
Definition print (o : output) : M unit := emit (Print o).

(** [try: body / except ...: handler]; [handler e] is [None] when no clause
    matches [e], which then propagates. *)
Definition try_except {A} (body : M A) (handler : exn → option (M A)) : M A :=
  λ tr,
    match body tr with
    | (Return a, tr') => (Return a, tr')
    | (Raise e, tr') =>
        match handler e with
        | Some h => h tr'
        | None => (Raise e, tr')
        end
    end.

(** [sys.exit(code)] *)
Definition sys_exit {A} (code : Z) : M A := raise (SystemExit code).

(** ** Operations on values *)

(** [d[key]] *)
Definition getitem (d : json) (key : str) : outcome json :=
  match d with
  | JObj m =>
      match m !! key with
      | Some v => Return v
      | None => Raise (KeyError key)
      end
  | _ => Raise TypeError
  end.

(** [d.get(key, dflt)] *)
Definition dict_get (d : json) (key : str) (dflt : json) : outcome json :=
  match d with
  | JObj m => Return (default dflt (m !! key))
  | _ => Raise AttributeError
  end.

(** [d.copy()]: dicts and lists have the method. *)
Definition copy (d : json) : outcome json :=
  match d with
  | JObj _ | JArr _ => Return d
  | _ => Raise AttributeError
  end.

Definition is_JStr (v : json) : bool :=
  match v with JStr _ => true | _ => false end.

(** [', '.join(v)] returns when [v] is an iterable of [str]: a list of
    strings, a string, or a dict (by its keys); the text it builds is not
    modelled. *)
Definition join (v : json) : outcome unit :=
  match v with
  | JArr l => if forallb is_JStr l then Return tt else Raise TypeError
  | JStr _ | JObj _ => Return tt
  | _ => Raise TypeError
  end.

(** ** jinja2 templates *)

(** A parsed template: literal text and [{{ name }}] expressions. *)
Inductive node : Type :=
| TemplateData (text : str)
| Name (name : str).

(** [template.render] with the context given as keyword arguments; an
    undefined name renders as nothing. *)
Definition render (template : list node) (context : gmap str str) : str :=
  concat ((λ n, match n with
                | TemplateData text => text
                | Name x => default [] (context !! x)
                end) <$> template).

(** ** [pinit/extractor.py]: the bookmark extractor

    The class [PinboardBookmarkExtractor] of [main.py] is the same code with
    the model name ["anthropic/claude-sonnet-4-0"] fixed. *)

Record PinboardBookmarkExtractor : Type := {
  model : str;
  system_prompt : str;
  prompt_template : list node;
}.

Definition SYSTEM_PROMPT : str := lit
"You are a bookmark extraction assistant. Fetch the web page content and extract bookmark data.
Extract these four fields:
- title: The main title/headline of the page (not the HTML title tag, but the actual content title)
- url: The original URL provided
- description: A concise 1-2 sentence summary of what the page is about
- tags: An array of 3-8 relevant lowercase tags (use hyphens for multi-word tags)
CRITICAL: Return ONLY the JSON object with no additional text, explanations, code fences, or markdown formatting. Your entire response must be valid JSON that can be parsed directly.".

(** The template source, parsed: text, [{{ url }}], text. *)
Definition PROMPT_TEMPLATE : list node :=
  [ TemplateData (lit
"Please fetch and analyze this web page to create a Pinboard bookmark entry:
URL: ");
    Name (lit "url");
    TemplateData (lit "
First fetch the web page content, then extract the bookmark data as JSON. DO NOT include a code fence.") ].

(** The default of [model_name] in [extractor.py], and the name [main.py]
    fixes. *)
Definition DEFAULT_MODEL : str := lit "claude-sonnet-4-0".
Definition MAIN_MODEL : str := lit "anthropic/claude-sonnet-4-0".

Section Program.

Variable E : Env.

(** [PinboardBookmarkExtractor.__init__] *)
Definition init (model_name : str) : M PinboardBookmarkExtractor :=
  match get_model E model_name with
  | Some e => raise e
  | None =>
      mret {| model := model_name;
              system_prompt := SYSTEM_PROMPT;
              prompt_template := PROMPT_TEMPLATE |}
  end.

(** [self.model.prompt(prompt, system=system).text()]: one call to the
    model, answered from the history before it. *)
Definition prompt_text (model prompt system : str) : M str :=
  λ tr, (response_text E tr model prompt system,
         tr ++ [Prompt model prompt system]).

(** The [try] block of [extract_bookmark] on the response text: strip,
    decode, and turn a decoding error into a [ValueError] whose message
    quotes the decoder's message and the response as it was received. *)
Definition parse_response (raw : str) : outcome json :=
  match loads E (strip raw) with
  | Return bookmark_data => Return bookmark_data
  | Raise (JSONDecodeError msg doc pos) =>
      Raise (ValueError (lit "Failed to parse JSON response: "
                           ++ JSONDecodeError_str msg doc pos
                           ++ 10%N :: lit "Response was: " ++ raw))
  | Raise e => Raise e
  end.

(** [PinboardBookmarkExtractor.extract_bookmark] *)
Definition extract_bookmark (self : PinboardBookmarkExtractor) (url : str)
    : M json :=
  let prompt := render (prompt_template self) {[ lit "url" := url ]} in
  text ← prompt_text (model self) prompt (system_prompt self);
  lift (parse_response text).

(** ** [main.py]: the publish adapter and the script *)

(** [pb.posts.add(...)] *)
Definition call_posts_add (pb : Pinboard) (args : PostsAdd.t) : M bool :=
  λ tr, (posts_add E tr pb args, tr ++ [Post pb args]).

(** [add_bookmark_from_json]: the arguments of [posts.add] are evaluated
    in the order they are written, before the call. *)
Definition add_bookmark_from_json (pb : Pinboard) (bookmark_json : json)
    : M bool :=
  bookmark_data ←
    match bookmark_json with
    | JStr s => lift (loads E s)
    | _ => mret bookmark_json
    end;
  url ← lift (getitem bookmark_data (lit "url"));
  title ← lift (getitem bookmark_data (lit "title"));
  description ← lift (dict_get bookmark_data (lit "description") (JStr []));
  tags ← lift (dict_get bookmark_data (lit "tags") (JArr []));
  call_posts_add pb
    {| PostsAdd.url := url;
       PostsAdd.description := title;
       PostsAdd.extended := description;
       PostsAdd.tags := tags;
       PostsAdd.shared := true;
       PostsAdd.toread := false |}.

(** The [try] block of [main]. *)
Definition main_try (pb : Pinboard) (extractor : PinboardBookmarkExtractor)
    (url : str) : M unit :=
  bookmark ← extract_bookmark extractor url;
  _ ← print (OutDumps bookmark);
  result ← add_bookmark_from_json pb bookmark;
  if negb result then print OutFailedToAdd
  else
    _ ← print OutAdded;
    print (OutAddedResult result).

(** [main()] of [main.py], with [sys.argv] as argument. *)
Definition main (argv : list str) : M unit :=
  match argv with
  | _ :: url :: _ =>
      let pb := {| token := getenv E (lit "PINBOARD_API_TOKEN") |} in
      extractor ← init MAIN_MODEL;
      try_except (main_try pb extractor url)
        (λ e, if isinstance_Exception e
              then Some (print (OutErrorAdding e)) else None)
  | _ =>
      _ ← print OutUsage;
      sys_exit 1
  end.

(** ** [pinit/cli.py]: the [add] command *)

(** [console.print(...)] *)
Definition console (o : output) : M unit :=
  λ tr,
    match console_print E tr o with
    | Some e => (Raise e, tr)
    | None => (Return tt, tr ++ [Print o])
    end.

(** [get_api_token] *)
Definition get_api_token : M (option str) :=
  let token := getenv E (lit "PINBOARD_API_TOKEN") in
  match token with
  | None | Some [] => _ ← console OutMissingToken; mret token
  | Some _ => mret token
  end.

(** The panel shown for the extracted bookmark: the four expressions of
    the f-string, in order. *)
Definition panel (bookmark : json) : outcome output :=
  match getitem bookmark (lit "title") with
  | Raise e => Raise e
  | Return title =>
      match getitem bookmark (lit "url") with
      | Raise e => Raise e
      | Return url =>
          match dict_get bookmark (lit "description") (JStr (lit "N/A")) with
          | Raise e => Raise e
          | Return description =>
              match dict_get bookmark (lit "tags") (JArr []) with
              | Raise e => Raise e
              | Return tags =>
                  match join tags with
                  | Raise e => Raise e
                  | Return _ => Return (OutPanel title url description tags)
                  end
              end
          end
      end
  end.

(** The [try] block of [add].  [publish] is [add_bookmark_from_json] as
    imported from [pinit/pinboard_client.py], a module that is not among
    the sources: the adapter is a parameter here, and the function of the
    same name of [main.py] is what the properties below put in its place.
    The options [private] and [toread] are received and not used. *)
Definition add_try (publish : Pinboard → json → M bool)
    (url : str) (dry_run output_json private toread : bool) : M unit :=
  extractor ← init DEFAULT_MODEL;
  bookmark ← extract_bookmark extractor url;
  _ ← (if output_json then
         match rich_json E bookmark with
         | Some e => raise e
         | None => console (OutJSON bookmark)
         end
       else p ← lift (panel bookmark); console p);
  if dry_run then console OutDryRun
  else
    api_token ← get_api_token;
    match api_token return M unit with
    | None | Some [] => sys_exit 1
    | Some _ =>
        let pb := {| token := api_token |} in
        bookmark_data ← lift (copy bookmark);
        result ← publish pb bookmark_data;
        if result : bool then console OutSaved
        else
          _ ← console OutFailedToSave;
          sys_exit 1
    end.

(** [add(url, dry_run, output_json, private, toread)] *)
Definition add (publish : Pinboard → json → M bool)
    (url : str) (dry_run output_json private toread : bool) : M unit :=
  try_except (add_try publish url dry_run output_json private toread)
    (λ e, if isinstance_ValueError e
          then Some (_ ← console (OutExtractionError e); sys_exit 1)
          else if isinstance_Exception e
          then Some (_ ← console (OutUnexpectedError e); sys_exit 1)
          else None).

End Program.


(** ** Concrete runs *)

(** A JSON text written with ['] in place of the double quote. *)
Definition json_text (s : string) : str :=
  (λ c, if (c =? 39)%N then 34%N else c) <$> lit s.

(** The collaborators of a run in which the model is known, answers
    [response] whatever it is asked, the service answers [published], the
    token in the environment is [api_token], and the terminal takes what
    it is given.  The constructor of rich's [JSON] takes the text as [json]
    and has no parameter [data]: called as the source calls it, it raises
    [TypeError]. *)
Definition scenario (response : str) (published : bool)
    (api_token : option str) : Env :=
  {| loads := json_loads;
     get_model := λ _, None;
     response_text := λ _ _ _ _, Return response;
     posts_add := λ _ _ _, Return published;
     getenv := λ _, api_token;
     rich_json := λ _, Some TypeError;
     console_print := λ _ _, None |}.

(** Model responses: the record of the specification's example, a record
    with the required fields only, an object without them, an object whose
    title is blank, a list, and prose. *)
Definition response_full : str := json_text
  "{'title':'T','url':'http://x','description':'D','tags':['a-b','c']}".
Definition response_minimal : str := json_text "{'title':'T','url':'http://x'}".
Definition response_no_title_url : str := json_text
  "{'description': 'x', 'tags': []}".
Definition response_blank_title : str := json_text
  "{'title': '   ', 'url': 'http://x'}".
Definition response_list : str := json_text "['a-b', 'c']".
Definition response_prose : str := lit "Sure, here's the bookmark: {...}".

(** The dicts three of them decode to. *)
Definition record_full : gmap str json :=
  {[ lit "title" := JStr (lit "T");
     lit "url" := JStr (lit "http://x");
     lit "description" := JStr (lit "D");
     lit "tags" := JArr [JStr (lit "a-b"); JStr (lit "c")] ]}.
Definition record_no_title_url : gmap str json :=
  {[ lit "description" := JStr (lit "x"); lit "tags" := JArr [] ]}.
Definition record_blank_title : gmap str json :=
  {[ lit "title" := JStr (lit "   "); lit "url" := JStr (lit "http://x") ]}.

(** The URL and the token of the runs. *)
Definition example_url : str := lit "http://x".
Definition example_token : str := lit "user:token".

(** The extractor [init] returns for the default model. *)
Definition default_extractor : PinboardBookmarkExtractor :=
  {| model := DEFAULT_MODEL;
     system_prompt := SYSTEM_PROMPT;
     prompt_template := PROMPT_TEMPLATE |}.

(** The value a computation returned, if it returned. *)
Definition returned {A} (o : outcome A) : option A :=
  match o with Return a => Some a | Raise _ => None end.

(** The calls to [posts.add] among events. *)
Definition posts (evs : list event) : list (Pinboard * PostsAdd.t) :=
  omap (λ ev, match ev with Post pb args => Some (pb, args) | _ => None end) evs.

(** The text of the user prompt around the URL. *)
Definition PROMPT_BEFORE_URL : str := lit
"Please fetch and analyze this web page to create a Pinboard bookmark entry:
URL: ".

Definition PROMPT_AFTER_URL : str := lit "
First fetch the web page content, then extract the bookmark data as JSON. DO NOT include a code fence.".

(** [PinboardBookmarkExtractor(model_name).extract_bookmark(url)] *)
Definition extraction (E : Env) (model_name url : str) : M json :=
  self ← init E model_name;
  extract_bookmark E self url.

(** The dict the publish adapter reads its fields from: the value it is
    given, or what that value decodes to when it is a string. *)
Definition record_of (E : Env) (bookmark_json : json) : option (gmap str json) :=
  match bookmark_json with
  | JObj m => Some m
  | JStr s => match loads E s with Return (JObj m) => Some m | _ => None end
  | _ => None
  end.

(** A text made of whitespace only (as [strip] sees it). *)
Definition all_space (s : str) : Prop := Forall (λ c, isspace c = true) s.

(** A text with no whitespace at either end. *)
Definition stripped (t : str) : bool :=
  match t, last t with
  | c :: _, Some d => negb (isspace c) && negb (isspace d)
  | _, _ => true
  end.

(** ** [pinit/cli.py]: the [config] command *)

(** [s.split(sep)] for a separator of one character. *)
Fixpoint split (sep : char) (s : str) : list str :=
  match s with
  | [] => [[]]
  | c :: s' =>
      if (c =? sep)%N then [] :: split sep s'
      else
        match split sep s' with
        | piece :: pieces => (c :: piece) :: pieces
        | [] => [[c]]
        end
  end.

(** [sep in s] for a separator of one character. *)
Definition contains (sep : char) (s : str) : bool := existsb (N.eqb sep) s.

(** The two files the command looks for: [Path(".env")] and
    [Path.home() / ".pinit" / ".env"]. *)
Inductive env_file : Type :=
| LocalEnv
| HomeEnv.

(** What [config] writes to the terminal, by message. *)
Inductive config_output : Type :=
| ConfigTitle
| TokenConfigured (username : str)
| TokenNotConfigured
| FilesTitle
| LocalFile (path : str)
| HomeFile (path : str)
| NoFiles.

(** What [config] runs with.  The file system may change while the command
    runs: its answers may depend on what was printed before. *)
Record ConfigEnv : Type := {
  (** [os.getenv(name)] *)
  config_getenv : str → option str;
  (** [Path.home()]: the exception it raises, if any *)
  path_home : option exn;
  (** [path.exists()] *)
  path_exists : list config_output → env_file → outcome bool;
  (** [path.absolute()], as the f-string shows it *)
  path_absolute : list config_output → env_file → outcome str;
  (** [console.print(...)]: the exception it raises, if any *)
  config_console : list config_output → config_output → option exn;
}.

(** A computation of [config]: it reads what was printed so far, prints,
    and returns or raises. *)
Definition C (A : Type) : Type :=
  list config_output → outcome A * list config_output.

#[global] Instance C_ret : MRet C := λ A a out, (Return a, out).

#[global] Instance C_bind : MBind C := λ A B f c out,
  match c out with
  | (Return a, out') => f a out'
  | (Raise e, out') => (Raise e, out')
  end.

Section Config.

Variable CE : ConfigEnv.

(** [console.print(...)] *)
Definition config_print (o : config_output) : C unit :=
  λ out,
    match config_console CE out o with
    | Some e => (Raise e, out)
    | None => (Return tt, out ++ [o])
    end.

(** [path.exists()] and [path.absolute()] *)
Definition exists_ (f : env_file) : C bool := λ out, (path_exists CE out f, out).
Definition absolute (f : env_file) : C str := λ out, (path_absolute CE out f, out).

(** The name shown for a token: what stands before its first colon, or
    ["unknown"] when it has none. *)
Definition username_of (api_token : str) : str :=
  if contains 58 api_token then hd [] (split 58 api_token) else lit "unknown".

(** [config()] *)
Definition config : C unit :=
  _ ← config_print ConfigTitle;
  _ ← match config_getenv CE (lit "PINBOARD_API_TOKEN") with
      | Some (c :: api_token) =>
          config_print (TokenConfigured (username_of (c :: api_token)))
      | Some [] | None => config_print TokenNotConfigured
      end;
  _ ← (λ out, (match path_home CE with Some e => Raise e | None => Return tt end,
               out)) : C unit;
  _ ← config_print FilesTitle;
  local_exists ← exists_ LocalEnv;
  _ ← (if local_exists : bool
       then path ← absolute LocalEnv; config_print (LocalFile path)
       else mret tt);
  home_exists ← exists_ HomeEnv;
  _ ← (if home_exists : bool
       then path ← absolute HomeEnv; config_print (HomeFile path)
       else mret tt);
  local_exists ← exists_ LocalEnv;
  none ← (if local_exists : bool then mret false
          else home_exists ← exists_ HomeEnv; mret (negb home_exists));
  if none : bool then config_print NoFiles else mret tt.

End Config.

(** ** Variations of the collaborators *)

(** [E] with another process environment and another Pinboard service. *)
Definition with_service (getenv' : str → option str)
    (posts_add' : list event → Pinboard → PostsAdd.t → outcome bool)
    (E : Env) : Env :=
  {| loads := loads E;
     get_model := get_model E;
     response_text := response_text E;
     posts_add := posts_add';
     getenv := getenv';
     rich_json := rich_json E;
     console_print := console_print E |}.

(** ** Responses that are no JSON *)

(** A text no JSON value starts: the empty text, or a first character that
    is none of the double quote, the brackets, the minus sign, a digit, and
    the first letters of [null], [true], [false], [NaN] and [Infinity]
    (nor JSON whitespace, nor a byte order mark). *)
Definition starts_no_value (s : str) : bool :=
  match s with
  | [] => true
  | c :: _ =>
      negb (Decoder.is_ws c || (c =? 65279) || (c =? 34) || (c =? 123)
            || (c =? 91) || (c =? 45) || Decoder.is_digit c || (c =? 110)
            || (c =? 116) || (c =? 102) || (c =? 78) || (c =? 73))%N
  end.

(** The message of the [ValueError] raised for such a response [raw]. *)
Definition expecting_value_error (raw : str) : exn :=
  ValueError
    (lit "Failed to parse JSON response: Expecting value: line 1 column 1 (char 0)"
     ++ 10%N :: lit "Response was: " ++ raw).

(** ** Steps of [add] *)

(** The display of the extracted bookmark in [add]: the [if output_json]
    statement. *)
Definition show (E : Env) (bookmark : json) (output_json : bool) : M unit :=
  if output_json then
    match rich_json E bookmark with
    | Some e => raise e
    | None => console E (OutJSON bookmark)
    end
  else p ← lift (panel bookmark); console E p.

(** The [except] clauses of [add], entered with the exception [e]. *)
Definition add_except (E : Env) (e : exn) : M unit :=
  if isinstance_ValueError e
  then _ ← console E (OutExtractionError e); sys_exit 1
  else if isinstance_Exception e
  then _ ← console E (OutUnexpectedError e); sys_exit 1
  else raise e.

(** The token a client is constructed with: present and not empty. *)
Definition truthy (api_token : option str) : bool :=
  match api_token with
  | None | Some [] => false
  | Some _ => true
  end.

(** ** Further runs *)

(** The dict the response with the required fields only decodes to. *)
Definition record_minimal : gmap str json :=
  {[ lit "title" := JStr (lit "T"); lit "url" := JStr (lit "http://x") ]}.

(** A response whose title and url are [null], and the dict it decodes
    to. *)
Definition response_null_fields : str := json_text
  "{'title': null, 'url': null}".
Definition record_null_fields : gmap str json :=
  {[ lit "title" := JNull; lit "url" := JNull ]}.

(** A response that is no JSON and starts with an integer of one digit
    more than [int] converts. *)
Definition response_long_number : str :=
  replicate 4301 49%N ++ lit " bookmarks found".

(** A response whose tags are numbers, and the dict it decodes to. *)
Definition response_number_tags : str := json_text
  "{'title':'T','url':'http://x','tags':[1,2]}".
Definition record_number_tags : gmap str json :=
  {[ lit "title" := JStr (lit "T");
     lit "url" := JStr (lit "http://x");
     lit "tags" := JArr [JInt 1; JInt 2] ]}.

(** A response inside a code fence, after a blank line. *)
Definition response_fenced : str := json_text "
```json
{'title':'T','url':'http://x'}
```".

(** A run in which the service rejects the call with a [ValueError]. *)
Definition rejecting_service : Env :=
  with_service (λ _, Some example_token)
    (λ _ _ _, Raise (ValueError (lit "invalid url")))
    (scenario response_minimal true None).

(** The collaborators of a run of [config]: the token in the environment,
    and whether each of the two files is there. *)
Definition config_scenario (api_token : option str) (local home : bool)
    : ConfigEnv :=
  {| config_getenv := λ _, api_token;
     path_home := None;
     path_exists := λ _ f,
       Return (match f with LocalEnv => local | HomeEnv => home end);
     path_absolute := λ _ f,
       Return (match f with
               | LocalEnv => lit "/work/.env"
               | HomeEnv => lit "/home/user/.pinit/.env"
               end);
     config_console := λ _ _, None |}.

(** ** Proof automation *)

(** Unfolds the operations of [M] in the goal. *)
Ltac run :=
  unfold mbind, M_bind, mret, M_ret, lift, raise, print, emit, try_except,
    sys_exit, call_posts_add, prompt_text, console; simpl.

(** Splits off the events a run added to the trace. *)
Ltac new_events :=
  first [ exists []; split; [by rewrite app_nil_r|]
        | eexists; split; [by rewrite <- ?app_assoc|] ].

(** Decides which [except] clause catches the exception at hand, and
    whether the terminal takes what is printed. *)
Ltac handlers :=
  repeat (match goal with
          | |- context [isinstance_ValueError ?e] =>
              destruct (isinstance_ValueError e)
          | |- context [isinstance_Exception ?e] =>
              destruct (isinstance_Exception e)
          | |- context [console_print ?E ?tr ?o] =>
              destruct (console_print E tr o)
          end; simpl).

(** Gives the outcome and the added events of a run that does not depend
    on the adapter. *)
Ltac same_run :=
  first [ eexists _, []; split; [done|]; intros ?; by rewrite app_nil_r
        | eexists _, _; split; [|intros ?; by rewrite <- ?app_assoc]; done ].

(** Closes a goal about the calls to [posts.add] among events that hold
    none. *)
Ltac no_posts := simpl; intros ?? ?%elem_of_nil; done.

(** * Properties *)

(** ** The decoder's recursion budget *)

Section DecoderBudget.

Import Decoder.

Implicit Types s r : str.

Lemma skip_ws_length s idx s' idx' :
  skip_ws s idx = (s', idx') → length s' ≤ length s.
Proof.
  revert idx. induction s as [|c s IH]; intros idx; simpl.
  - by intros [= <- _].
  - destruct (is_ws c); [|by intros [= <- _]].
    intros H%IH. lia.
Qed.

Lemma scanstring_length s idx begin acc a r i :
  scanstring s idx begin acc = Ok a r i → length r < length s.
Proof.
  revert idx acc.
  induction s as [s IH] using (induction_ltof1 _ (@length N)).
  unfold ltof in IH. intros idx acc. destruct s as [|c s1]; [done|].
  simpl. repeat case_match; try done;
    try (intros [= _ <- _]; simpl; lia);
    intros Hrec%IH; simplify_eq/=; lia.
Qed.

Lemma span_digits_length s ds r :
  span_digits s = (ds, r) → length r ≤ length s.
Proof.
  revert ds r. induction s as [|c s IH]; intros ds r; simpl.
  - by intros [= _ <-].
  - destruct (is_digit c); [|by intros [= _ <-]].
    destruct (span_digits s) as [ds' r'] eqn:Hs. intros [= _ <-].
    specialize (IH _ _ eq_refl). lia.
Qed.

Lemma match_integer_length s text r :
  match_integer s = Some (text, r) → length r < length s.
Proof.
  unfold match_integer. intros H.
  repeat case_match; simplify_eq;
    repeat match goal with
           | H : span_digits _ = _ |- _ => apply span_digits_length in H
           end; simpl in *; lia.
Qed.

Lemma match_frac_length s text r :
  match_frac s = (text, r) → length r ≤ length s.
Proof.
  unfold match_frac. intros H.
  repeat case_match; simplify_eq;
    repeat match goal with
           | H : span_digits _ = _ |- _ => apply span_digits_length in H
           end; simpl in *; lia.
Qed.

Lemma match_exp_length s text r :
  match_exp s = (text, r) → length r ≤ length s.
Proof.
  unfold match_exp. intros H.
  repeat case_match; simplify_eq;
    repeat match goal with
           | H : span_digits _ = _ |- _ => apply span_digits_length in H
           end; simpl in *; lia.
Qed.

Lemma match_number_length s idx v r i :
  match_number s idx = Ok v r i → length r < length s.
Proof.
  unfold match_number. intros H.
  repeat case_match; simplify_eq;
    repeat match goal with
           | H : match_integer _ = _ |- _ => apply match_integer_length in H
           | H : match_frac _ = _ |- _ => apply match_frac_length in H
           | H : match_exp _ = _ |- _ => apply match_exp_length in H
           end; simpl in *; lia.
Qed.

Lemma keyword_length kw v s idx otherwise w r i :
  (otherwise = Ok w r i → length r ≤ length s) →
  keyword kw v s idx otherwise = Ok w r i → length r ≤ length s.
Proof.
  unfold keyword. intros Hother. case_match; [|done].
  intros [= _ <- _]. rewrite length_drop. lia.
Qed.

Lemma nextchar_is_length c s :
  nextchar_is c s = true → S (length (drop 1 s)) = length s.
Proof. destruct s; [done|]. simpl. by rewrite drop_0. Qed.

(** Collects what is known of the lengths of the texts left by the calls
    in the context. *)
Ltac lengths :=
  repeat match goal with
         | H : skip_ws _ _ = _ |- _ => apply skip_ws_length in H
         | H : scanstring _ _ _ _ = Ok _ _ _ |- _ => apply scanstring_length in H
         | H : match_number _ _ = Ok _ _ _ |- _ => apply match_number_length in H
         | H : nextchar_is _ _ = true |- _ => apply nextchar_is_length in H
         end.

(** Takes the next test of the scanner apart. *)
Ltac scanner_step :=
  lazymatch goal with
  | |- keyword _ _ _ _ _ = _ → _ => apply keyword_length
  | |- context [match ?x with _ => _ end] => destruct x eqn:?
  end.

(** A term that is read leaves no more text than there was. *)
Lemma scan_length depth :
  (∀ s idx v r i, scan_once depth s idx = Ok v r i → length r ≤ length s)
  ∧ (∀ s idx acc v r i,
       object_loop depth s idx acc = Ok v r i → length r ≤ length s)
  ∧ (∀ s idx acc v r i,
       array_loop depth s idx acc = Ok v r i → length r ≤ length s).
Proof.
  induction depth as [|depth (IHscan & IHobject & IHarray)]; [done|].
  assert (Hobj : ∀ s s' idx acc v r i,
    object_loop depth s idx acc = Ok v r i → length s ≤ length s' →
    length r ≤ length s') by (intros * H%IHobject; lia).
  assert (Harr : ∀ s s' idx acc v r i,
    array_loop depth s idx acc = Ok v r i → length s ≤ length s' →
    length r ≤ length s') by (intros * H%IHarray; lia).
  split; [|split]; intros s idx; intros *; simpl.
  - destruct s as [|c s1]; [done|].
    repeat scanner_step; try done; unfold scan_map; repeat scanner_step;
      try done; intros; simplify_eq; lengths;
      first [ eapply Hobj; [eassumption|simpl; lia]
            | eapply Harr; [eassumption|simpl; lia]
            | simpl in *; lia ].
  - repeat scanner_step; try done; intros; simplify_eq;
      repeat match goal with
             | H : scan_once depth _ _ = Ok _ _ _ |- _ => apply IHscan in H
             end; lengths;
      first [ eapply Hobj; [eassumption|simpl; lia] | simpl in *; lia ].
  - repeat scanner_step; try done; intros; simplify_eq;
      repeat match goal with
             | H : scan_once depth _ _ = Ok _ _ _ |- _ => apply IHscan in H
             end; lengths;
      first [ eapply Harr; [eassumption|simpl; lia] | simpl in *; lia ].
Qed.

Lemma scanstring_not_too_deep s idx begin acc :
  scanstring s idx begin acc ≠ TooDeep.
Proof.
  revert idx acc.
  induction s as [s IH] using (induction_ltof1 _ (@length N)).
  unfold ltof in IH. intros idx acc. destruct s as [|c s1]; [done|].
  simpl. repeat case_match; try done; apply IH; simplify_eq/=; lia.
Qed.

Lemma match_number_not_too_deep s idx : match_number s idx ≠ TooDeep.
Proof. unfold match_number. by repeat case_match. Qed.

Lemma keyword_not_too_deep kw v s idx otherwise :
  otherwise ≠ TooDeep → keyword kw v s idx otherwise ≠ TooDeep.
Proof. unfold keyword. by case_match. Qed.

(** Closes a goal in which a scanner without recursion budget is said to
    have used it up. *)
Ltac too_deep :=
  match goal with
  | H : scanstring _ _ _ _ = TooDeep |- _ =>
      by destruct (scanstring_not_too_deep _ _ _ _ H)
  | H : match_number _ _ = TooDeep |- _ =>
      by destruct (match_number_not_too_deep _ _ H)
  end.

(** A budget of more than twice the length of the text is not used up. *)
Lemma scan_budget depth :
  (∀ s idx, 2 * length s < depth → scan_once depth s idx ≠ TooDeep)
  ∧ (∀ s idx acc,
       2 * length s < depth → object_loop depth s idx acc ≠ TooDeep)
  ∧ (∀ s idx acc,
       2 * length s + 1 < depth → array_loop depth s idx acc ≠ TooDeep).
Proof.
  induction depth as [|depth (IHscan & IHobject & IHarray)];
    [by repeat split; intros; lia|].
  pose proof (scan_length depth) as (Hlen & _ & _).
  split; [|split]; intros s idx; intros *; simpl; intros Hdepth.
  - destruct s as [|c s1]; [done|]. unfold scan_map.
    repeat first [ apply keyword_not_too_deep
                 | lazymatch goal with
                   | |- context [match ?x with _ => _ end] => destruct x eqn:?
                   end ];
      try done; try too_deep;
      lengths; first [ apply IHobject | apply IHarray ]; simpl in *; lia.
  - repeat lazymatch goal with
           | |- context [match ?x with _ => _ end] => destruct x eqn:?
           end; try done; try too_deep;
      repeat match goal with
             | H : scan_once depth _ _ = Ok _ _ _ |- _ => apply Hlen in H
             end;
      lengths;
      first [ apply IHobject; simpl in *; lia
            | match goal with
              | H : scan_once depth ?s' ?i = TooDeep |- _ =>
                  destruct (IHscan s' i); [simpl in *; lia|exact H]
              end ].
  - repeat lazymatch goal with
           | |- context [match ?x with _ => _ end] => destruct x eqn:?
           end; try done;
      repeat match goal with
             | H : scan_once depth _ _ = Ok _ _ _ |- _ => apply Hlen in H
             end;
      lengths;
      first [ apply IHarray; simpl in *; lia
            | match goal with
              | H : scan_once depth ?s' ?i = TooDeep |- _ =>
                  destruct (IHscan s' i); [simpl in *; lia|exact H]
              end ].
Qed.

(** Decoding never stops for lack of budget: [decode] returns a value,
    raises a [JSONDecodeError], or raises the [ValueError] of an integer
    beyond the limit. *)
Lemma decode_total s :
  (∃ v, decode s = Return v)
  ∨ (∃ msg pos, decode s = Raise (JSONDecodeError msg s pos))
  ∨ (∃ digits, decode s = Raise (ValueError (exceeds_limit digits))).
Proof.
  unfold decode. destruct (skip_ws s 0) as [s0 i0] eqn:Hs0.
  destruct (scan_once (2 * length s + 1) s0 i0)
    as [v s1 i1|msg pos|digits|] eqn:Hscan.
  - destruct (skip_ws s1 i1) as [[|c s2] i2]; eauto.
  - eauto.
  - eauto.
  - destruct (scan_budget (2 * length s + 1)) as (Hbudget & _).
    apply skip_ws_length in Hs0. destruct (Hbudget s0 i0); [lia|done].
Qed.

(** [json_loads] returns a value, raises a [JSONDecodeError], or raises
    the [ValueError] of an integer beyond the limit. *)
Lemma json_loads_total s :
  (∃ v, json_loads s = Return v)
  ∨ (∃ msg pos, json_loads s = Raise (JSONDecodeError msg s pos))
  ∨ (∃ digits, json_loads s = Raise (ValueError (exceeds_limit digits))).
Proof.
  unfold json_loads. destruct (startswith _ s); [eauto|apply decode_total].
Qed.

End DecoderBudget.

(** ** Stripping *)

Section Strip.

Implicit Types s t l r : str.

Lemma lstrip_app s t :
  lstrip (s ++ t) = match lstrip s with [] => lstrip t | _ => lstrip s ++ t end.
Proof.
  induction s as [|c s IH]; simpl.
  - by destruct (lstrip t).
  - destruct (isspace c); [exact IH | done].
Qed.

Lemma lstrip_all_space s : all_space s → lstrip s = [].
Proof.
  induction 1 as [|c s Hc _ IH]; simpl; [done|]. by rewrite Hc.
Qed.

Lemma lstrip_space_l l s : all_space l → lstrip (l ++ s) = lstrip s.
Proof. intros Hl. by rewrite lstrip_app, lstrip_all_space. Qed.

Lemma all_space_reverse s : all_space s → all_space (reverse s).
Proof. unfold all_space. by rewrite Forall_reverse. Qed.

Lemma rstrip_space_r s r : all_space r → rstrip (s ++ r) = rstrip s.
Proof.
  intros Hr. unfold rstrip.
  by rewrite reverse_app, lstrip_space_l by by apply all_space_reverse.
Qed.

(** Whitespace around a text does not change what [strip] returns. *)
Lemma strip_surrounded l t r :
  all_space l → all_space r → strip (l ++ t ++ r) = strip t.
Proof.
  intros Hl Hr. unfold strip.
  rewrite lstrip_space_l by done. rewrite lstrip_app.
  destruct (lstrip t) as [|c t'] eqn:Ht.
  - by rewrite (lstrip_all_space r).
  - by rewrite rstrip_space_r.
Qed.

(** A text is its stripped text between two runs of whitespace. *)
Lemma lstrip_split s : ∃ l, all_space l ∧ s = l ++ lstrip s.
Proof.
  induction s as [|c s [l [Hl IH]]]; [exists []; split; [constructor|done]|].
  simpl. destruct (isspace c) eqn:Hc.
  - exists (c :: l). split; [by constructor|]. simpl. by rewrite <- IH.
  - exists []. split; [constructor|done].
Qed.

Lemma rstrip_split s : ∃ r, all_space r ∧ s = rstrip s ++ r.
Proof.
  destruct (lstrip_split (reverse s)) as [l [Hl Hs]].
  exists (reverse l). split; [by apply all_space_reverse|].
  unfold rstrip. rewrite <- reverse_app, <- Hs. by rewrite reverse_involutive.
Qed.

Lemma strip_split s : ∃ l r, all_space l ∧ all_space r ∧ s = l ++ strip s ++ r.
Proof.
  destruct (lstrip_split s) as [l [Hl Hs]].
  destruct (rstrip_split (lstrip s)) as [r [Hr Hs']].
  exists l, r. repeat split; [done..|]. unfold strip. by rewrite <- Hs', <- Hs.
Qed.

(** [strip] leaves a text with no whitespace at its ends as it is. *)
Lemma strip_stripped t : stripped t = true → strip t = t.
Proof.
  destruct t as [|c t']; [done|]. unfold stripped.
  destruct (last (c :: t')) as [d|] eqn:Hlast;
    [|by rewrite last_cons in Hlast; destruct (last t')].
  intros [Hc Hd]%andb_true_iff.
  apply negb_true_iff in Hc. apply negb_true_iff in Hd.
  apply last_Some in Hlast as [t0 Ht0].
  unfold strip. simpl. rewrite Hc. unfold rstrip.
  rewrite Ht0, reverse_app. simpl. rewrite Hd.
  by rewrite reverse_cons, reverse_involutive.
Qed.

(** Stripping twice is stripping once. *)
Lemma strip_strip s : strip (strip s) = strip s.
Proof.
  destruct (strip_split s) as [l [r [Hl [Hr Hs]]]].
  rewrite Hs at 2. by rewrite strip_surrounded.
Qed.

End Strip.

(** ** The extraction parser *)

Section Parser.

Variable E : Env.

Implicit Types raw t l r : str.
Implicit Types m : gmap str json.

(** A response that decodes is returned as decoded, whatever the value. *)
Lemma parse_response_returns raw v :
  loads E (strip raw) = Return v → parse_response E raw = Return v.
Proof. unfold parse_response. by intros ->. Qed.

(** The parser returns exactly when the decoder does, and the same value. *)
Lemma returned_parse_response raw :
  returned (parse_response E raw) = returned (loads E (strip raw)).
Proof.
  unfold parse_response.
  destruct (loads E (strip raw)) as [v|e]; [done|]. by destruct e.
Qed.

(** The render of the prompt template is the text of the template with the
    URL in place of [{{ url }}]. *)
Lemma render_prompt_template url :
  render PROMPT_TEMPLATE {[ lit "url" := url ]}
  = PROMPT_BEFORE_URL ++ url ++ PROMPT_AFTER_URL.
Proof.
  unfold render, PROMPT_TEMPLATE.
  cbn [fmap list_fmap concat]. rewrite lookup_singleton_eq.
  cbn [default]. by rewrite app_nil_r.
Qed.

(** [extract_bookmark] makes one call to the model, and parses its answer. *)
Lemma extract_bookmark_unfold self url tr :
  let prompt := render (prompt_template self) {[ lit "url" := url ]} in
  extract_bookmark E self url tr
  = (match response_text E tr (model self) prompt (system_prompt self) with
     | Return raw => parse_response E raw
     | Raise e => Raise e
     end,
     tr ++ [Prompt (model self) prompt (system_prompt self)]).
Proof.
  unfold extract_bookmark, prompt_text, mbind, M_bind, lift. simpl.
  by destruct (response_text E tr _ _ _).
Qed.

(** What [extract_bookmark] returns or raises is what the parser does on
    the text of the response. *)
Lemma extract_bookmark_parses self url tr raw :
  response_text E tr (model self)
    (render (prompt_template self) {[ lit "url" := url ]}) (system_prompt self)
  = Return raw →
  fst (extract_bookmark E self url tr) = parse_response E raw.
Proof. intros Hraw. rewrite extract_bookmark_unfold. simpl. by rewrite Hraw. Qed.



End Parser.

(** ** The publish adapter *)

Section Adapter.

Variable E : Env.

Implicit Types m : gmap str json.
Implicit Types tr : list event.

(** On a dict the adapter looks up "url", then "title", and calls
    [posts.add] once when both are there. *)
Lemma add_bookmark_from_json_dict pb m tr :
  add_bookmark_from_json E pb (JObj m) tr
  = match m !! lit "url", m !! lit "title" with
    | None, _ => (Raise (KeyError (lit "url")), tr)
    | Some _, None => (Raise (KeyError (lit "title")), tr)
    | Some url, Some title =>
        let args := {| PostsAdd.url := url;
                       PostsAdd.description := title;
                       PostsAdd.extended :=
                         default (JStr []) (m !! lit "description");
                       PostsAdd.tags := default (JArr []) (m !! lit "tags");
                       PostsAdd.shared := true;
                       PostsAdd.toread := false |} in
        (posts_add E tr pb args, tr ++ [Post pb args])
    end.
Proof.
  unfold add_bookmark_from_json. run.
  destruct (m !! lit "url"); [|done]. by destruct (m !! lit "title").
Qed.

(** On a string that decodes to a dict the adapter does what it does on
    the dict. *)
Lemma add_bookmark_from_json_decoded pb s m tr :
  loads E s = Return (JObj m) →
  add_bookmark_from_json E pb (JStr s) tr
  = add_bookmark_from_json E pb (JObj m) tr.
Proof.
  intros Hs. unfold add_bookmark_from_json. run. by rewrite Hs.
Qed.

(** The adapter either leaves the trace as it is, or adds one call whose
    url and description are the "url" and "title" of the record it read,
    and whose flags are the constants of the source. *)
Lemma add_bookmark_from_json_trace pb v tr :
  ∃ o new,
    add_bookmark_from_json E pb v tr = (o, tr ++ new)
    ∧ (new = []
       ∨ ∃ m args,
           new = [Post pb args]
           ∧ record_of E v = Some m
           ∧ m !! lit "url" = Some (PostsAdd.url args)
           ∧ m !! lit "title" = Some (PostsAdd.description args)
           ∧ PostsAdd.shared args = true
           ∧ PostsAdd.toread args = false).
Proof.
  assert (Hdict : ∀ m, record_of E v = Some m →
    ∃ o new,
      add_bookmark_from_json E pb (JObj m) tr = (o, tr ++ new)
      ∧ (new = []
         ∨ ∃ m args,
             new = [Post pb args]
             ∧ record_of E v = Some m
             ∧ m !! lit "url" = Some (PostsAdd.url args)
             ∧ m !! lit "title" = Some (PostsAdd.description args)
             ∧ PostsAdd.shared args = true
             ∧ PostsAdd.toread args = false)).
  { intros m Hm. rewrite add_bookmark_from_json_dict.
    destruct (m !! lit "url") as [u|] eqn:Hu;
      [|exists (Raise (KeyError (lit "url"))), []; by rewrite app_nil_r; auto].
    destruct (m !! lit "title") as [t|] eqn:Ht;
      [|exists (Raise (KeyError (lit "title"))), []; by rewrite app_nil_r; auto].
    eexists _, _. split; [done|]. right. eexists m, _. by repeat split. }
  destruct v as [| | | |s| |m]; try by (eexists _, []; rewrite app_nil_r; auto).
  - destruct (loads E s) as [v|e] eqn:Hs.
    + destruct v as [| | | | | |m];
        try by (unfold add_bookmark_from_json; run; rewrite Hs;
                eexists _, []; rewrite app_nil_r; auto).
      rewrite (add_bookmark_from_json_decoded _ _ _ _ Hs).
      apply Hdict. simpl. by rewrite Hs.
    + unfold add_bookmark_from_json. run. rewrite Hs.
      eexists _, []. rewrite app_nil_r. auto.
  - by apply Hdict.
Qed.

(** C5.  Given a record, the adapter sends the record's "title" as
    [description], its "description" as [extended], and its "url" and
    "tags" under their own names: one call to [posts.add], whose values are
    the record's, unchanged. *)
Theorem add_bookmark_from_json_fields pb m url title tr :
  m !! lit "url" = Some url →
  m !! lit "title" = Some title →
  let args := {| PostsAdd.url := url;
                 PostsAdd.description := title;
                 PostsAdd.extended := default (JStr []) (m !! lit "description");
                 PostsAdd.tags := default (JArr []) (m !! lit "tags");
                 PostsAdd.shared := true;
                 PostsAdd.toread := false |} in
  add_bookmark_from_json E pb (JObj m) tr
  = (posts_add E tr pb args, tr ++ [Post pb args])
  ∧ (∀ description, m !! lit "description" = Some description →
                    PostsAdd.extended args = description)
  ∧ (∀ tags, m !! lit "tags" = Some tags → PostsAdd.tags args = tags).
Proof.
  intros Hurl Htitle args. rewrite add_bookmark_from_json_dict, Hurl, Htitle.
  split; [done|]. subst args. simpl. split; by intros ? ->.
Qed.

(** C10.  Given a string that decodes to a dict, the adapter does what it
    does given that dict: the same result and the same trace; when the dict
    has a "url" and a "title", that is one call to [posts.add] with the
    fields read from the dict. *)
Theorem add_bookmark_from_json_str pb s m tr :
  loads E s = Return (JObj m) →
  add_bookmark_from_json E pb (JStr s) tr
  = add_bookmark_from_json E pb (JObj m) tr
  ∧ (∀ url title,
       m !! lit "url" = Some url →
       m !! lit "title" = Some title →
       let args := {| PostsAdd.url := url;
                      PostsAdd.description := title;
                      PostsAdd.extended :=
                        default (JStr []) (m !! lit "description");
                      PostsAdd.tags := default (JArr []) (m !! lit "tags");
                      PostsAdd.shared := true;
                      PostsAdd.toread := false |} in
       add_bookmark_from_json E pb (JStr s) tr
       = (posts_add E tr pb args, tr ++ [Post pb args])).
Proof.
  intros Hs. split; [by apply add_bookmark_from_json_decoded|].
  intros url title Hurl Htitle args.
  rewrite (add_bookmark_from_json_decoded _ _ _ _ Hs).
  by rewrite add_bookmark_from_json_dict, Hurl, Htitle.
Qed.

End Adapter.

(** ** The script of [main.py] *)

Section Script.

Variable E : Env.

Implicit Types m : gmap str json.
Implicit Types tr : list event.

(** The [try] block of [main], step by step. *)
Lemma main_try_unfold pb self url tr :
  let prompt := render (prompt_template self) {[ lit "url" := url ]} in
  let tr1 := tr ++ [Prompt (model self) prompt (system_prompt self)] in
  main_try E pb self url tr
  = match response_text E tr (model self) prompt (system_prompt self) with
    | Raise e => (Raise e, tr1)
    | Return raw =>
        match parse_response E raw with
        | Raise e => (Raise e, tr1)
        | Return bookmark =>
            match add_bookmark_from_json E pb bookmark
                    (tr1 ++ [Print (OutDumps bookmark)]) with
            | (Raise e, tr3) => (Raise e, tr3)
            | (Return true, tr3) =>
                (Return tt, (tr3 ++ [Print OutAdded])
                              ++ [Print (OutAddedResult true)])
            | (Return false, tr3) => (Return tt, tr3 ++ [Print OutFailedToAdd])
            end
        end
    end.
Proof.
  intros prompt tr1. unfold main_try.
  unfold mbind at 1, M_bind at 1. rewrite extract_bookmark_unfold.
  fold prompt. fold tr1.
  destruct (response_text E tr (model self) prompt (system_prompt self))
    as [raw|e]; [|done].
  destruct (parse_response E raw) as [bookmark|e]; [|done]. run.
  destruct (add_bookmark_from_json E pb bookmark _) as [[[]|e] tr3]; done.
Qed.

End Script.

(** ** The two flows *)

Section Flows.

Variable E : Env.

Implicit Types m : gmap str json.
Implicit Types tr : list event.

(** Constructing the extractor and extracting: the model is looked up, asked
    once, and its answer parsed. *)
Lemma extraction_unfold model_name url tr :
  extraction E model_name url tr
  = match get_model E model_name with
    | Some e => (Raise e, tr)
    | None =>
        (match response_text E tr model_name
                 (PROMPT_BEFORE_URL ++ url ++ PROMPT_AFTER_URL) SYSTEM_PROMPT with
         | Return raw => parse_response E raw
         | Raise e => Raise e
         end,
         tr ++ [Prompt model_name (PROMPT_BEFORE_URL ++ url ++ PROMPT_AFTER_URL)
                  SYSTEM_PROMPT])
    end.
Proof.
  unfold extraction, init. destruct (get_model E model_name); [done|].
  unfold mbind, M_bind, mret, M_ret. rewrite extract_bookmark_unfold.
  cbn [model system_prompt prompt_template]. by rewrite render_prompt_template.
Qed.

(** The calls among events put end to end. *)
Lemma posts_app evs1 evs2 : posts (evs1 ++ evs2) = posts evs1 ++ posts evs2.
Proof. apply omap_app. Qed.

(** Every call [main] makes to [posts.add] follows an extraction that
    returned, and sends the "url" and "title" of the record extracted. *)
Lemma main_posts argv tr :
  ∃ new,
    snd (main E argv tr) = tr ++ new
    ∧ ∀ pb args, (pb, args) ∈ posts new →
        ∃ script url rest bookmark m,
          argv = script :: url :: rest
          ∧ fst (extraction E MAIN_MODEL url tr) = Return bookmark
          ∧ record_of E bookmark = Some m
          ∧ m !! lit "url" = Some (PostsAdd.url args)
          ∧ m !! lit "title" = Some (PostsAdd.description args).
Proof.
  destruct argv as [|script [|url rest]];
    try by (eexists; split; [done|]; no_posts).
  unfold main, init.
  destruct (get_model E MAIN_MODEL) as [e|] eqn:Hmodel.
  { exists []. rewrite app_nil_r. split; [done|]. no_posts. }
  unfold mbind at 1, M_bind at 1, mret, M_ret, try_except.
  rewrite main_try_unfold. cbn [model system_prompt prompt_template].
  rewrite render_prompt_template.
  set (prompt := PROMPT_BEFORE_URL ++ url ++ PROMPT_AFTER_URL).
  destruct (response_text E tr MAIN_MODEL prompt SYSTEM_PROMPT) as [raw|e] eqn:Hraw.
  2:{ destruct (isinstance_Exception e); run;
      (eexists; split; [by rewrite <- ?app_assoc|]; no_posts). }
  destruct (parse_response E raw) as [bookmark|e] eqn:Hparse.
  2:{ destruct (isinstance_Exception e); run;
      (eexists; split; [by rewrite <- ?app_assoc|]; no_posts). }
  destruct (add_bookmark_from_json_trace E {| token := getenv E (lit "PINBOARD_API_TOKEN") |} bookmark
              ((tr ++ [Prompt MAIN_MODEL prompt SYSTEM_PROMPT]) ++ [Print (OutDumps bookmark)]))
    as (o & new & -> & Hnew).
  assert (Hposts : ∀ pb args, (pb, args) ∈ posts new →
    ∃ script0 url0 rest0 bookmark0 m,
      script :: url :: rest = script0 :: url0 :: rest0
      ∧ fst (extraction E MAIN_MODEL url0 tr) = Return bookmark0
      ∧ record_of E bookmark0 = Some m
      ∧ m !! lit "url" = Some (PostsAdd.url args)
      ∧ m !! lit "title" = Some (PostsAdd.description args)).
  { destruct Hnew as [->|(m & args & -> & Hm & Hu & Ht & _)]; [no_posts|].
    intros pb' args' [= -> ->]%list_elem_of_singleton.
    exists script, url, rest, bookmark, m. split; [done|].
    rewrite extraction_unfold, Hmodel. fold prompt. rewrite Hraw. done. }
  destruct o as [[]|e]; [| |destruct (isinstance_Exception e)]; run;
    (eexists; split; [by rewrite <- ?app_assoc|]);
    intros pb args Hin; apply (Hposts pb args);
    rewrite ?posts_app in Hin; simpl in Hin; by rewrite ?app_nil_r in Hin.
Qed.

(** [copy] returns the value it was given. *)
Lemma copy_returns d v : copy d = Return v → v = d.
Proof. by destruct d; simpl; intros [= <-]. Qed.

(** The same for [add], run with the adapter of [main.py]; the flags of
    the call are the constants of that adapter. *)
Lemma add_posts url dry_run output_json private toread tr :
  ∃ new,
    snd (add E (add_bookmark_from_json E) url dry_run output_json private
           toread tr) = tr ++ new
    ∧ ∀ pb args, (pb, args) ∈ posts new →
        ∃ bookmark m,
          fst (extraction E DEFAULT_MODEL url tr) = Return bookmark
          ∧ record_of E bookmark = Some m
          ∧ m !! lit "url" = Some (PostsAdd.url args)
          ∧ m !! lit "title" = Some (PostsAdd.description args)
          ∧ PostsAdd.shared args = true
          ∧ PostsAdd.toread args = false.
Proof.
  rewrite extraction_unfold.
  unfold add, add_try, try_except, init.
  destruct (get_model E DEFAULT_MODEL) as [e|] eqn:Hmodel.
  { run. handlers; run; new_events; no_posts. }
  unfold mbind at 1, M_bind at 1, mret at 1, M_ret at 1.
  unfold mbind at 1, M_bind at 1. rewrite extract_bookmark_unfold.
  cbn [model system_prompt prompt_template].
  rewrite render_prompt_template.
  set (prompt := PROMPT_BEFORE_URL ++ url ++ PROMPT_AFTER_URL).
  destruct (response_text E tr DEFAULT_MODEL prompt SYSTEM_PROMPT) as [raw|e] eqn:Hraw.
  2:{ run. handlers; run; new_events; no_posts. }
  destruct (parse_response E raw) as [bookmark|e] eqn:Hparse.
  2:{ run. handlers; run; new_events; no_posts. }
  assert (Hposts : ∀ pb tr2, ∃ o new,
    add_bookmark_from_json E pb bookmark tr2 = (o, tr2 ++ new)
    ∧ ∀ pb' args, (pb', args) ∈ posts new →
        ∃ bookmark0 m,
          Return bookmark = Return bookmark0
          ∧ record_of E bookmark0 = Some m
          ∧ m !! lit "url" = Some (PostsAdd.url args)
          ∧ m !! lit "title" = Some (PostsAdd.description args)
          ∧ PostsAdd.shared args = true
          ∧ PostsAdd.toread args = false).
  { intros pb tr2.
    destruct (add_bookmark_from_json_trace E pb bookmark tr2)
      as (o & new & Hrun & [->|(m & args & -> & Hm & Hu & Ht)]);
      exists o; eexists; (split; [exact Hrun|]); [no_posts|].
    intros pb' args' [= -> ->]%list_elem_of_singleton. by exists bookmark, m. }
  cbn [fst].
  destruct output_json;
    [destruct (rich_json E bookmark) as [e|]
    |destruct (panel bookmark) as [p|e] eqn:Hpanel];
    (destruct dry_run;
     [|unfold get_api_token;
       destruct (getenv E (lit "PINBOARD_API_TOKEN")) as [[|c tok]|];
       [| destruct (copy bookmark) as [v|e'] eqn:Hv;
          [apply copy_returns in Hv; subst v|] |]]); run; handlers; run;
    try match goal with
        | |- context [add_bookmark_from_json E ?pb bookmark ?tr2] =>
            destruct (Hposts pb tr2) as (o & new & -> & Hin);
            destruct o as [[]|e]; run
        end;
    handlers; run;
    first [ new_events; no_posts
          | new_events; intros pb args Hnew; apply (Hin pb args);
            rewrite ?posts_app in Hnew; simpl in Hnew;
            by rewrite ?app_nil_r in Hnew ].
Qed.

(** When extraction raises, [add] ends without running the adapter it was
    given: the run is the same for every adapter, and holds no call to
    [posts.add]. *)
Lemma add_extraction_failure url dry_run output_json private toread tr e :
  fst (extraction E DEFAULT_MODEL url tr) = Raise e →
  ∃ out new,
    posts new = []
    ∧ ∀ publish,
        add E publish url dry_run output_json private toread tr
        = (out, tr ++ new).
Proof.
  rewrite extraction_unfold. unfold add, add_try, try_except, init.
  destruct (get_model E DEFAULT_MODEL) as [e0|] eqn:Hmodel.
  { intros [= ->]. run. handlers; run; same_run. }
  unfold mbind at 1, M_bind at 1, mret at 1, M_ret at 1.
  unfold mbind at 1, M_bind at 1. rewrite extract_bookmark_unfold.
  cbn [model system_prompt prompt_template fst].
  rewrite render_prompt_template.
  set (prompt := PROMPT_BEFORE_URL ++ url ++ PROMPT_AFTER_URL).
  destruct (response_text E tr DEFAULT_MODEL prompt SYSTEM_PROMPT) as [raw|e0].
  - intros ->. run. handlers; run; same_run.
  - intros [= ->]. run. handlers; run; same_run.
Qed.



(** C3, as the code has it.  When the response decodes to an object,
    extraction returns it whether or not "title" and "url" are there.  The
    failure comes from the publish adapter: without "url" it raises
    [KeyError('url')], with "url" and without "title" [KeyError('title')],
    in both cases before any call to [posts.add]; a [KeyError] is not a
    [ValueError], which is what a response that does not decode raises.
    When both keys are there the record is published with their values as
    they are, empty after trimming or not. *)
Theorem missing_field_key_error pb self url tr raw m :
  let prompt := render (prompt_template self) {[ lit "url" := url ]} in
  let tr' := tr ++ [Prompt (model self) prompt (system_prompt self);
                    Print (OutDumps (JObj m))] in
  response_text E tr (model self) prompt (system_prompt self) = Return raw →
  loads E (strip raw) = Return (JObj m) →
  fst (extract_bookmark E self url tr) = Return (JObj m)
  ∧ (m !! lit "url" = None →
     main_try E pb self url tr = (Raise (KeyError (lit "url")), tr'))
  ∧ (is_Some (m !! lit "url") → m !! lit "title" = None →
     main_try E pb self url tr = (Raise (KeyError (lit "title")), tr'))
  ∧ (∀ key, isinstance_ValueError (KeyError key) = false)
  ∧ (∀ msg, isinstance_ValueError (ValueError msg) = true)
  ∧ (∀ u t, m !! lit "url" = Some u → m !! lit "title" = Some t →
       ∃ out args after,
         main_try E pb self url tr = (out, tr' ++ Post pb args :: after)
         ∧ PostsAdd.url args = u
         ∧ PostsAdd.description args = t).
Proof.
  intros prompt tr' Hraw Hdec.
  assert (Hparse : parse_response E raw = Return (JObj m))
    by by apply parse_response_returns.
  assert (Hrun : main_try E pb self url tr
    = match add_bookmark_from_json E pb (JObj m) tr' with
      | (Raise e, tr3) => (Raise e, tr3)
      | (Return true, tr3) =>
          (Return tt, (tr3 ++ [Print OutAdded]) ++ [Print (OutAddedResult true)])
      | (Return false, tr3) => (Return tt, tr3 ++ [Print OutFailedToAdd])
      end).
  { rewrite main_try_unfold. fold prompt. rewrite Hraw, Hparse.
    unfold tr'. by rewrite <- app_assoc. }
  split; [|split; [|split; [|split; [|split]]]]; try done.
  - rewrite extract_bookmark_unfold. fold prompt. by rewrite Hraw.
  - intros Hu. by rewrite Hrun, add_bookmark_from_json_dict, Hu.
  - intros [u Hu] Ht. by rewrite Hrun, add_bookmark_from_json_dict, Hu, Ht.
  - intros u t Hu Ht. rewrite Hrun, add_bookmark_from_json_dict, Hu, Ht.
    cbv zeta. destruct (posts_add E tr' pb _) as [[]|e];
      eexists _, _, _; (split; [by rewrite <- ?app_assoc|done]).
Qed.

(** C4, as the code has it.  A response that decodes to a value that is
    not an object is returned by the parser as decoded, with no error; when
    the value is not a string either, the publish adapter raises
    [TypeError] on it before any call to [posts.add]. *)
Theorem parse_response_not_object raw v :
  loads E (strip raw) = Return v →
  (∀ m, v ≠ JObj m) →
  parse_response E raw = Return v
  ∧ ((∀ s, v ≠ JStr s) →
     ∀ pb tr, add_bookmark_from_json E pb v tr = (Raise TypeError, tr)).
Proof.
  intros Hdec Hobj. split; [by apply parse_response_returns|].
  intros Hstr pb tr. destruct v; try done.
  - by destruct (Hstr s).
  - by destruct (Hobj m).
Qed.

(** C8.  The extractor holds the same system prompt and the same template
    whatever the model and the environment; each call to [extract_bookmark]
    sends the model that system prompt and the template's text with the URL
    in place, whatever happened before; so two calls for one URL send the
    same pair, and two URLs that give the same user prompt are the same. *)
Theorem prompt_deterministic model_name self tr0 :
  fst (init E model_name tr0) = Return self →
  system_prompt self = SYSTEM_PROMPT
  ∧ (∀ E' url tr,
       snd (extract_bookmark E' self url tr)
       = tr ++ [Prompt model_name
                  (PROMPT_BEFORE_URL ++ url ++ PROMPT_AFTER_URL) SYSTEM_PROMPT])
  ∧ (∀ E1 E2 url tr1 tr2,
       drop (length tr1) (snd (extract_bookmark E1 self url tr1))
       = drop (length tr2) (snd (extract_bookmark E2 self url tr2)))
  ∧ (∀ url1 url2,
       PROMPT_BEFORE_URL ++ url1 ++ PROMPT_AFTER_URL
       = PROMPT_BEFORE_URL ++ url2 ++ PROMPT_AFTER_URL →
       url1 = url2).
Proof.
  unfold init. destruct (get_model E model_name); [done|].
  intros [= <-]. cbn [system_prompt].
  assert (Hsend : ∀ E' url tr,
    snd (extract_bookmark E'
           {| model := model_name; system_prompt := SYSTEM_PROMPT;
              prompt_template := PROMPT_TEMPLATE |} url tr)
    = tr ++ [Prompt model_name
               (PROMPT_BEFORE_URL ++ url ++ PROMPT_AFTER_URL) SYSTEM_PROMPT]).
  { intros E' url tr. rewrite extract_bookmark_unfold.
    cbn [model system_prompt prompt_template snd].
    by rewrite render_prompt_template. }
  split; [done|]. split; [done|]. split.
  - intros E1 E2 url tr1 tr2. by rewrite !Hsend, !drop_app_length.
  - intros url1 url2 Heq. by simplify_list_eq.
Qed.

(** C1, as the code has it.  A response that decodes as an object is
    returned, by the parser and so by [extract_bookmark], as the decoded
    object: its values are the decoded ones, and a key that is missing
    stays missing; the parser substitutes no default.  The defaults are
    those of the readers: with a "title" and a "url" there, the publish
    adapter sends the decoded title and url, the decoded description and
    tags when they are there (a list of tags as it was decoded, in its
    order), and [""] and the empty list when they are not; the panel of
    [add] shows ["N/A"] for a missing description. *)
Theorem parse_response_record raw m title url :
  loads E (strip raw) = Return (JObj m) →
  m !! lit "title" = Some title →
  m !! lit "url" = Some url →
  parse_response E raw = Return (JObj m)
  ∧ (∀ self page tr,
       response_text E tr (model self)
         (render (prompt_template self) {[ lit "url" := page ]})
         (system_prompt self)
       = Return raw →
       fst (extract_bookmark E self page tr) = Return (JObj m))
  ∧ (∀ pb tr,
       let args := {| PostsAdd.url := url;
                      PostsAdd.description := title;
                      PostsAdd.extended :=
                        default (JStr []) (m !! lit "description");
                      PostsAdd.tags := default (JArr []) (m !! lit "tags");
                      PostsAdd.shared := true;
                      PostsAdd.toread := false |} in
       add_bookmark_from_json E pb (JObj m) tr
       = (posts_add E tr pb args, tr ++ [Post pb args]))
  ∧ (∀ pb tr description tags,
       m !! lit "description" = Some description →
       m !! lit "tags" = Some tags →
       ∃ args,
         add_bookmark_from_json E pb (JObj m) tr
         = (posts_add E tr pb args, tr ++ [Post pb args])
         ∧ PostsAdd.extended args = description
         ∧ PostsAdd.tags args = tags)
  ∧ (join (default (JArr []) (m !! lit "tags")) = Return tt →
     panel (JObj m)
     = Return (OutPanel title url
                 (default (JStr (lit "N/A")) (m !! lit "description"))
                 (default (JArr []) (m !! lit "tags")))).
Proof.
  intros Hdec Htitle Hurl.
  assert (Hparse : parse_response E raw = Return (JObj m))
    by by apply parse_response_returns.
  split; [done|]. split; [|split; [|split]].
  - intros self page tr Hraw. by rewrite (extract_bookmark_parses _ _ _ _ raw).
  - intros pb tr args. by rewrite add_bookmark_from_json_dict, Hurl, Htitle.
  - intros pb tr description tags Hd Ht. eexists.
    rewrite add_bookmark_from_json_dict, Hurl, Htitle. split; [done|].
    simpl. by rewrite Hd, Ht.
  - intros Hjoin. unfold panel. simpl. by rewrite Htitle, Hurl, Hjoin.
Qed.

(** The options [private] and [toread] do not reach the adapter: [add] is
    the same computation whatever they are. *)
Lemma add_options_unused publish url dry_run output_json
    private toread private' toread' :
  add E publish url dry_run output_json private toread
  = add E publish url dry_run output_json private' toread'.
Proof. reflexivity. Qed.

(** With the adapter of [main.py], every call [add] makes to [posts.add] is
    shared and not to read. *)
Lemma add_posts_shared url dry_run output_json private toread tr :
  ∃ new,
    snd (add E (add_bookmark_from_json E) url dry_run output_json private
           toread tr) = tr ++ new
    ∧ ∀ pb args, (pb, args) ∈ posts new →
        PostsAdd.shared args = true ∧ PostsAdd.toread args = false.
Proof.
  destruct (add_posts url dry_run output_json private toread tr)
    as (new & Hrun & Hnew).
  exists new. split; [done|]. intros pb args Hin.
  by destruct (Hnew pb args Hin) as (? & ? & _ & _ & _ & _ & ? & ?).
Qed.

End Flows.

(** ** Runs on concrete responses *)

(** C1 fails on the code.  The response with a title and a url only is
    returned as the dict with these two keys: it has no "description" and
    no "tags", and the panel of [add] shows ["N/A"] for its description,
    not [""]. *)
Lemma record_defaults_counterexample :
  parse_response (scenario response_minimal true None) response_minimal
  = Return (JObj record_minimal)
  ∧ record_minimal !! lit "description" = None
  ∧ record_minimal !! lit "tags" = None
  ∧ panel (JObj record_minimal)
    = Return (OutPanel (JStr (lit "T")) (JStr (lit "http://x"))
                (JStr (lit "N/A")) (JArr [])).
Proof. repeat split; by vm_compute. Qed.

(** C1 as the code has it, on that response and on the specification's
    example: what the adapter sends for each. *)
Lemma parse_response_record_witness :
  (parse_response (scenario response_minimal true None) response_minimal
   = Return (JObj record_minimal)
   ∧ add_bookmark_from_json (scenario response_minimal true None)
       {| token := Some example_token |} (JObj record_minimal) []
     = (Return true,
        [Post {| token := Some example_token |}
           {| PostsAdd.url := JStr (lit "http://x");
              PostsAdd.description := JStr (lit "T");
              PostsAdd.extended := JStr [];
              PostsAdd.tags := JArr [];
              PostsAdd.shared := true;
              PostsAdd.toread := false |}]))
  ∧ (parse_response (scenario response_full true None) response_full
     = Return (JObj record_full)
     ∧ add_bookmark_from_json (scenario response_full true None)
         {| token := Some example_token |} (JObj record_full) []
       = (Return true,
          [Post {| token := Some example_token |}
             {| PostsAdd.url := JStr (lit "http://x");
                PostsAdd.description := JStr (lit "T");
                PostsAdd.extended := JStr (lit "D");
                PostsAdd.tags := JArr [JStr (lit "a-b"); JStr (lit "c")];
                PostsAdd.shared := true;
                PostsAdd.toread := false |}])).
Proof.
  split.
  - destruct (parse_response_record (scenario response_minimal true None)
                response_minimal record_minimal
                (JStr (lit "T")) (JStr (lit "http://x")))
      as (Hparse & _ & Hcall & _); [by vm_compute..|].
    split; [done|]. rewrite Hcall. by vm_compute.
  - destruct (parse_response_record (scenario response_full true None)
                response_full record_full
                (JStr (lit "T")) (JStr (lit "http://x")))
      as (Hparse & _ & Hcall & _); [by vm_compute..|].
    split; [done|]. rewrite Hcall. by vm_compute.
Defined.



(** The diagnostic of that run, as Python prints it. *)
Example decode_error_message :
  JSONDecodeError_str (lit "Expecting value") response_prose 0
  = lit "Expecting value: line 1 column 1 (char 0)".
Proof. by vm_compute. Qed.

(** C3 fails on the code.  With a response that has neither
    "title" nor "url", [main] extracts the object, prints it, and reports
    the [KeyError] of the adapter's first lookup; with a title of three
    spaces, [main] publishes the record, its title as it is. *)
Lemma schema_error_counterexample :
  main (scenario response_no_title_url true (Some example_token))
    [lit "main.py"; example_url] []
  = (Return tt,
     [Prompt MAIN_MODEL
        (PROMPT_BEFORE_URL ++ example_url ++ PROMPT_AFTER_URL) SYSTEM_PROMPT;
      Print (OutDumps (JObj record_no_title_url));
      Print (OutErrorAdding (KeyError (lit "url")))])
  ∧ main (scenario response_blank_title true (Some example_token))
      [lit "main.py"; example_url] []
    = (Return tt,
       [Prompt MAIN_MODEL
          (PROMPT_BEFORE_URL ++ example_url ++ PROMPT_AFTER_URL) SYSTEM_PROMPT;
        Print (OutDumps (JObj record_blank_title));
        Post {| token := Some example_token |}
          {| PostsAdd.url := JStr (lit "http://x");
             PostsAdd.description := JStr (lit "   ");
             PostsAdd.extended := JStr [];
             PostsAdd.tags := JArr [];
             PostsAdd.shared := true;
             PostsAdd.toread := false |};
        Print OutAdded;
        Print (OutAddedResult true)]).
Proof. split; by vm_compute. Qed.

(** C3 as the code has it, on the response with neither field. *)
Lemma missing_field_key_error_witness :
  loads (scenario response_no_title_url true None) (strip response_no_title_url)
  = Return (JObj record_no_title_url)
  ∧ record_no_title_url !! lit "url" = None
  ∧ main_try (scenario response_no_title_url true None)
      {| token := None |} default_extractor example_url []
    = (Raise (KeyError (lit "url")),
       [Prompt DEFAULT_MODEL
          (render PROMPT_TEMPLATE {[ lit "url" := example_url ]}) SYSTEM_PROMPT;
        Print (OutDumps (JObj record_no_title_url))]).
Proof.
  assert (Hdec : loads (scenario response_no_title_url true None)
                   (strip response_no_title_url)
                 = Return (JObj record_no_title_url)) by by vm_compute.
  assert (Hurl : record_no_title_url !! lit "url" = None) by by vm_compute.
  split; [done|]. split; [done|].
  exact (proj1 (proj2 (missing_field_key_error
                         (scenario response_no_title_url true None)
                         {| token := None |} default_extractor example_url []
                         response_no_title_url record_no_title_url
                         eq_refl Hdec)) Hurl).
Defined.

(** C4 fails on the code: a response that is a JSON list is returned by
    the parser, as a list. *)
Lemma not_object_counterexample :
  parse_response (scenario response_list true None) response_list
  = Return (JArr [JStr (lit "a-b"); JStr (lit "c")]).
Proof. by vm_compute. Qed.

(** C4 as the code has it, on that list. *)
Lemma parse_response_not_object_witness :
  parse_response (scenario response_list true None) response_list
  = Return (JArr [JStr (lit "a-b"); JStr (lit "c")])
  ∧ ((∀ s, JArr [JStr (lit "a-b"); JStr (lit "c")] ≠ JStr s) →
     ∀ pb tr,
       add_bookmark_from_json (scenario response_list true None) pb
         (JArr [JStr (lit "a-b"); JStr (lit "c")]) tr
       = (Raise TypeError, tr)).
Proof.
  apply (parse_response_not_object (scenario response_list true None)
           response_list (JArr [JStr (lit "a-b"); JStr (lit "c")])).
  - by vm_compute.
  - intros m. discriminate.
Defined.

(** C5, on the record of the specification's example. *)
Lemma add_bookmark_from_json_fields_witness :
  add_bookmark_from_json (scenario response_full true None)
    {| token := Some example_token |} (JObj record_full) []
  = (Return true,
     [Post {| token := Some example_token |}
        {| PostsAdd.url := JStr (lit "http://x");
           PostsAdd.description := JStr (lit "T");
           PostsAdd.extended := JStr (lit "D");
           PostsAdd.tags := JArr [JStr (lit "a-b"); JStr (lit "c")];
           PostsAdd.shared := true;
           PostsAdd.toread := false |}]).
Proof.
  assert (Hu : record_full !! lit "url" = Some (JStr (lit "http://x")))
    by by vm_compute.
  assert (Ht : record_full !! lit "title" = Some (JStr (lit "T")))
    by by vm_compute.
  rewrite (proj1 (add_bookmark_from_json_fields
                    (scenario response_full true None)
                    {| token := Some example_token |} record_full
                    (JStr (lit "http://x")) (JStr (lit "T")) [] Hu Ht)).
  by vm_compute.
Defined.

(** C6 fails on the code.  [add] run with [private] and [toread] set, on
    a response with a title and a url, makes one call to [posts.add],
    shared and not to read; and whatever the environment and the adapter,
    [add] with both options set is [add] with none. *)
Theorem add_private_toread_not_sent :
  posts (snd (add (scenario response_minimal true (Some example_token))
                (add_bookmark_from_json
                   (scenario response_minimal true (Some example_token)))
                example_url false false true true []))
  = [({| token := Some example_token |},
      {| PostsAdd.url := JStr (lit "http://x");
         PostsAdd.description := JStr (lit "T");
         PostsAdd.extended := JStr [];
         PostsAdd.tags := JArr [];
         PostsAdd.shared := true;
         PostsAdd.toread := false |})]
  ∧ ∀ E publish url dry_run output_json tr,
      add E publish url dry_run output_json true true tr
      = add E publish url dry_run output_json false false tr.
Proof. split; [by vm_compute|done]. Qed.




(** C8, on the extractor of the default model. *)
Lemma prompt_deterministic_witness :
  system_prompt default_extractor = SYSTEM_PROMPT
  ∧ (∀ E' url tr,
       snd (extract_bookmark E' default_extractor url tr)
       = tr ++ [Prompt DEFAULT_MODEL
                  (PROMPT_BEFORE_URL ++ url ++ PROMPT_AFTER_URL) SYSTEM_PROMPT])
  ∧ (∀ E1 E2 url tr1 tr2,
       drop (length tr1) (snd (extract_bookmark E1 default_extractor url tr1))
       = drop (length tr2) (snd (extract_bookmark E2 default_extractor url tr2)))
  ∧ (∀ url1 url2,
       PROMPT_BEFORE_URL ++ url1 ++ PROMPT_AFTER_URL
       = PROMPT_BEFORE_URL ++ url2 ++ PROMPT_AFTER_URL →
       url1 = url2).
Proof.
  exact (prompt_deterministic (scenario response_full true None)
           DEFAULT_MODEL default_extractor [] eq_refl).
Defined.

(** C10, on the text of the specification's example. *)
Lemma add_bookmark_from_json_str_witness :
  add_bookmark_from_json (scenario response_full true None)
    {| token := Some example_token |} (JStr response_full) []
  = add_bookmark_from_json (scenario response_full true None)
      {| token := Some example_token |} (JObj record_full) [].
Proof.
  apply (proj1 (add_bookmark_from_json_str (scenario response_full true None)
                  {| token := Some example_token |} response_full record_full
                  [] eq_refl)).
Defined.

(** * Further properties *)

(** ** The [config] command *)

Section ConfigFacts.

Implicit Types s : str.

(** [split] returns at least one piece. *)
Lemma split_pieces sep s : ∃ piece pieces, split sep s = piece :: pieces.
Proof.
  induction s as [|c s (piece & pieces & IH)]; simpl; [by eauto|].
  destruct (c =? sep)%N; [by eauto|]. rewrite IH. eauto.
Qed.

(** The first piece has no separator, and the text is the first piece,
    then, when the text has a separator, the separator and the rest. *)
Lemma split_first sep s :
  contains sep (hd [] (split sep s)) = false
  ∧ (contains sep s = true → ∃ rest, s = hd [] (split sep s) ++ sep :: rest)
  ∧ (contains sep s = false → hd [] (split sep s) = s).
Proof.
  induction s as [|c s (IHno & IHyes & IHall)]; simpl; [done|].
  destruct (N.eqb_spec c sep) as [->|Hne]; simpl.
  - rewrite N.eqb_refl. simpl. split; [done|]. split; [by eauto|done].
  - destruct (split_pieces sep s) as (piece & pieces & Hs).
    rewrite Hs in *. simpl in *.
    destruct (N.eqb_spec sep c) as [->|_]; [done|]. simpl.
    split; [done|]. split.
    + intros [rest ->]%IHyes. by exists rest.
    + intros Hs'. by rewrite IHall.
Qed.

(** The name shown for a token holds no colon; it is ["unknown"] for a
    token without colon, and otherwise the token is the name, a colon, and
    the rest. *)
Lemma username_of_masks api_token :
  contains 58 (username_of api_token) = false
  ∧ ((contains 58 api_token = false ∧ username_of api_token = lit "unknown")
     ∨ ∃ secret, api_token = username_of api_token ++ 58%N :: secret).
Proof.
  unfold username_of.
  destruct (split_first 58 api_token) as (Hno & Hyes & _).
  destruct (contains 58 api_token) eqn:Hcolon.
  - split; [done|]. right. by apply Hyes.
  - split; [by vm_compute|]. by left.
Qed.

(** Takes the next answer of the collaborators of [config] apart. *)
Ltac config_step :=
  match goal with
  | |- context [config_console ?CE ?out ?o] =>
      destruct (config_console CE out o)
  | |- context [path_exists ?CE ?out ?f] =>
      destruct (path_exists CE out f) as [[]|]
  | |- context [path_absolute ?CE ?out ?f] =>
      destruct (path_absolute CE out f)
  | |- context [path_home ?CE] => destruct (path_home CE)
  end; simpl.

(** Splits off what a run of [config] printed, and looks at each line. *)
Ltac config_lines :=
  first [ exists []; split; [by rewrite app_nil_r|]
        | eexists; split; [by rewrite <- ?app_assoc|] ];
  intros username Hin;
  repeat (apply elem_of_cons in Hin as [Hin|Hin]; [try done|]);
  try by apply elem_of_nil in Hin.

(** [config] shows a name only for a token that is there and not empty,
    and the name holds no colon: it is what stands before the first colon
    of the token, or ["unknown"] for a token without colon.  What follows
    the first colon is in no name shown. *)
Theorem config_masks_token CE out :
  ∃ new,
    snd (config CE out) = out ++ new
    ∧ ∀ username, TokenConfigured username ∈ new →
        contains 58 username = false
        ∧ ∃ api_token,
            config_getenv CE (lit "PINBOARD_API_TOKEN") = Some api_token
            ∧ api_token ≠ []
            ∧ ((contains 58 api_token = false ∧ username = lit "unknown")
               ∨ ∃ secret, api_token = username ++ 58%N :: secret).
Proof.
  unfold config.
  unfold mbind, C_bind, mret, C_ret, config_print, exists_, absolute. simpl.
  destruct (config_getenv CE (lit "PINBOARD_API_TOKEN")) as [[|c tok]|] eqn:Htok;
    repeat config_step; config_lines.
  all: injection Hin as ->;
    destruct (username_of_masks (c :: tok)) as (Hno & Hmask);
    (split; [done|]); by exists (c :: tok).
Qed.

(** When the answers of the file system do not change while [config]
    runs, it does not print that no file was found after the line of a file
    it found. *)
Theorem config_no_files CE out :
  (∀ out1 out2 f, path_exists CE out1 f = path_exists CE out2 f) →
  ∃ new,
    snd (config CE out) = out ++ new
    ∧ (NoFiles ∈ new →
       ∀ path, (LocalFile path ∉ new) ∧ (HomeFile path ∉ new)).
Proof.
  intros Hstable. unfold config.
  unfold mbind, C_bind, mret, C_ret, config_print, exists_, absolute. simpl.
  assert (Hlocal : ∀ out1, path_exists CE out1 LocalEnv = path_exists CE [] LocalEnv)
    by (intros; apply Hstable).
  assert (Hhome : ∀ out1, path_exists CE out1 HomeEnv = path_exists CE [] HomeEnv)
    by (intros; apply Hstable).
  clear Hstable.
  destruct (path_exists CE [] LocalEnv) as [[]|],
    (path_exists CE [] HomeEnv) as [[]|];
    destruct (config_getenv CE (lit "PINBOARD_API_TOKEN")) as [[|c tok]|];
    repeat first [ rewrite !Hlocal | rewrite !Hhome | config_step ];
    (first [ exists []; split; [by rewrite app_nil_r|]
           | eexists; split; [by rewrite <- ?app_assoc|] ]);
    intros Hin;
    repeat (apply elem_of_cons in Hin as [Hin|Hin]; [try done|]);
    try (by apply elem_of_nil in Hin);
    intros path; split; intros Hfile;
    repeat (apply elem_of_cons in Hfile as [Hfile|Hfile]; [try done|]);
    by apply elem_of_nil in Hfile.
Qed.

End ConfigFacts.

(** ** The publish adapter and the script, further *)

Section ScriptFacts.

Variable E : Env.

Implicit Types m : gmap str json.
Implicit Types tr : list event.

(** The adapter either raises without calling [posts.add], or calls it
    once and ends as the call ended. *)
Lemma add_bookmark_from_json_call pb v tr :
  (∃ e, add_bookmark_from_json E pb v tr = (Raise e, tr))
  ∨ (∃ m args,
       record_of E v = Some m
       ∧ add_bookmark_from_json E pb v tr
         = (posts_add E tr pb args, tr ++ [Post pb args])).
Proof.
  assert (Hdict : ∀ m,
    (∃ e, add_bookmark_from_json E pb (JObj m) tr = (Raise e, tr))
    ∨ (∃ args, add_bookmark_from_json E pb (JObj m) tr
               = (posts_add E tr pb args, tr ++ [Post pb args]))).
  { intros m. rewrite add_bookmark_from_json_dict.
    destruct (m !! lit "url"); [|by eauto].
    destruct (m !! lit "title"); by eauto. }
  destruct v as [| | | |s| |m]; try (by left; eexists).
  - destruct (loads E s) as [v|e] eqn:Hs.
    + destruct v as [| | | | | |m];
        try (by left; unfold add_bookmark_from_json; run; rewrite Hs; eexists).
      rewrite (add_bookmark_from_json_decoded _ _ _ _ _ Hs).
      destruct (Hdict m) as [?|[args ?]]; [by left|right].
      exists m, args. simpl. by rewrite Hs.
    + left. unfold add_bookmark_from_json. run. rewrite Hs. by eexists.
  - destruct (Hdict m) as [?|[args ?]]; [by left|right]. by exists m, args.
Qed.

(** The adapter makes at most one call to [posts.add] and ends as that
    call ended: it returns what the service returned and raises what the
    service raised.  When it raises without calling, that is the error of
    decoding the string it was given, a [KeyError] for "url" or "title", or
    a [TypeError] for a value that is no dict. *)
Theorem add_bookmark_from_json_result pb v tr :
  (∃ e,
     add_bookmark_from_json E pb v tr = (Raise e, tr)
     ∧ ((∃ s, v = JStr s ∧ loads E s = Raise e)
        ∨ (∃ m, record_of E v = Some m
                ∧ ((m !! lit "url" = None ∧ e = KeyError (lit "url"))
                   ∨ (m !! lit "title" = None ∧ e = KeyError (lit "title"))))
        ∨ (record_of E v = None ∧ e = TypeError)))
  ∨ (∃ m args,
       record_of E v = Some m
       ∧ add_bookmark_from_json E pb v tr
         = (posts_add E tr pb args, tr ++ [Post pb args])).
Proof.
  assert (Hdict : ∀ m, record_of E v = Some m →
    add_bookmark_from_json E pb v tr
    = add_bookmark_from_json E pb (JObj m) tr →
    (∃ e,
       add_bookmark_from_json E pb v tr = (Raise e, tr)
       ∧ ((∃ s, v = JStr s ∧ loads E s = Raise e)
          ∨ (∃ m, record_of E v = Some m
                  ∧ ((m !! lit "url" = None ∧ e = KeyError (lit "url"))
                     ∨ (m !! lit "title" = None
                        ∧ e = KeyError (lit "title"))))
          ∨ (record_of E v = None ∧ e = TypeError)))
    ∨ (∃ m args,
         record_of E v = Some m
         ∧ add_bookmark_from_json E pb v tr
           = (posts_add E tr pb args, tr ++ [Post pb args]))).
  { intros m Hm ->. rewrite add_bookmark_from_json_dict.
    destruct (m !! lit "url") eqn:Hu.
    2:{ left. eexists. split; [done|]. right. left. exists m. by auto. }
    destruct (m !! lit "title") eqn:Ht.
    2:{ left. eexists. split; [done|]. right. left. exists m. by auto. }
    right. by eexists m, _. }
  destruct v as [| | | |s| |m];
    try (by left; exists TypeError; split; [done|]; right; right).
  - destruct (loads E s) as [v|e] eqn:Hs.
    + destruct v as [| | | | | |m];
        try (by left; exists TypeError; unfold add_bookmark_from_json; run;
                rewrite Hs; split; [done|]; right; right).
      apply (Hdict m); [by simpl; rewrite Hs|].
      by apply add_bookmark_from_json_decoded.
    + left. exists e. unfold add_bookmark_from_json. run. rewrite Hs.
      split; [done|]. left. by exists s.
  - by apply (Hdict m).
Qed.


(** [main] prints that the bookmark was added only after a call to
    [posts.add] that returned true, and that it failed to add it only after
    a call that returned false; the call is made with the token of the
    environment as it is, missing or empty too. *)
Theorem main_reports argv tr :
  ∃ new,
    snd (main E argv tr) = tr ++ new
    ∧ ∀ result,
        Print (if result : bool then OutAdded else OutFailedToAdd) ∈ new →
        ∃ args tr',
          posts new = [({| token := getenv E (lit "PINBOARD_API_TOKEN") |},
                        args)]
          ∧ posts_add E tr'
              {| token := getenv E (lit "PINBOARD_API_TOKEN") |} args
            = Return result.
Proof.
  destruct argv as [|script [|url rest]];
    try by (eexists; split; [done|]; intros [] Hin; simpl in Hin;
            repeat (apply elem_of_cons in Hin as [Hin|Hin]; [done|]);
            by apply elem_of_nil in Hin).
  unfold main, init.
  destruct (get_model E MAIN_MODEL) as [e|].
  { exists []. rewrite app_nil_r. split; [done|].
    by intros ? ?%elem_of_nil. }
  unfold mbind at 1, M_bind at 1, mret, M_ret, try_except.
  rewrite main_try_unfold. cbn [model system_prompt prompt_template].
  rewrite render_prompt_template.
  set (prompt := PROMPT_BEFORE_URL ++ url ++ PROMPT_AFTER_URL).
  set (pb := {| token := getenv E (lit "PINBOARD_API_TOKEN") |}).
  destruct (response_text E tr MAIN_MODEL prompt SYSTEM_PROMPT) as [raw|e].
  2:{ destruct (isinstance_Exception e); run;
      (eexists; split; [by rewrite <- ?app_assoc|]); intros [] Hin;
      repeat (apply elem_of_cons in Hin as [Hin|Hin]; [done|]);
      by apply elem_of_nil in Hin. }
  destruct (parse_response E raw) as [bookmark|e].
  2:{ destruct (isinstance_Exception e); run;
      (eexists; split; [by rewrite <- ?app_assoc|]); intros [] Hin;
      repeat (apply elem_of_cons in Hin as [Hin|Hin]; [done|]);
      by apply elem_of_nil in Hin. }
  destruct (add_bookmark_from_json_call pb bookmark
              ((tr ++ [Prompt MAIN_MODEL prompt SYSTEM_PROMPT])
                 ++ [Print (OutDumps bookmark)]))
    as [[e ->]|(m & args & _ & ->)].
  { destruct (isinstance_Exception e); run;
      (eexists; split; [by rewrite <- ?app_assoc|]); intros [] Hin;
      repeat (apply elem_of_cons in Hin as [Hin|Hin]; [done|]);
      by apply elem_of_nil in Hin. }
  destruct (posts_add E _ pb args) as [[]|e] eqn:Hcall;
    [| |destruct (isinstance_Exception e)]; run;
    (eexists; split; [by rewrite <- ?app_assoc|]); intros [] Hin;
    repeat (apply elem_of_cons in Hin as [Hin|Hin]; [try done|]);
    try (by apply elem_of_nil in Hin);
    by eexists args, _.
Qed.

End ScriptFacts.

(** ** The [add] command, further *)

Section CommandFacts.

Variable E : Env.

Implicit Types m : gmap str json.
Implicit Types tr : list event.

(** [add], step by step. *)
Lemma add_unfold publish url dry_run output_json private toread tr :
  add E publish url dry_run output_json private toread tr
  = match extraction E DEFAULT_MODEL url tr with
    | (Raise e, tr1) => add_except E e tr1
    | (Return bookmark, tr1) =>
        match show E bookmark output_json tr1 with
        | (Raise e, tr2) => add_except E e tr2
        | (Return _, tr2) =>
            if dry_run then
              match console_print E tr2 OutDryRun with
              | Some e => add_except E e tr2
              | None => (Return tt, tr2 ++ [Print OutDryRun])
              end
            else
              let api_token := getenv E (lit "PINBOARD_API_TOKEN") in
              if truthy api_token then
                match copy bookmark with
                | Raise e => add_except E e tr2
                | Return _ =>
                    match publish {| token := api_token |} bookmark tr2 with
                    | (Raise e, tr3) => add_except E e tr3
                    | (Return true, tr3) =>
                        match console_print E tr3 OutSaved with
                        | Some e => add_except E e tr3
                        | None => (Return tt, tr3 ++ [Print OutSaved])
                        end
                    | (Return false, tr3) =>
                        match console_print E tr3 OutFailedToSave with
                        | Some e => add_except E e tr3
                        | None =>
                            (Raise (SystemExit 1),
                             tr3 ++ [Print OutFailedToSave])
                        end
                    end
                end
              else
                match console_print E tr2 OutMissingToken with
                | Some e => add_except E e tr2
                | None => (Raise (SystemExit 1), tr2 ++ [Print OutMissingToken])
                end
        end
    end.
Proof.
  rewrite extraction_unfold.
  unfold add, add_try, try_except, init, add_except, show.
  destruct (get_model E DEFAULT_MODEL) as [e|]; [by run; handlers|].
  unfold mbind at 1, M_bind at 1, mret at 1, M_ret at 1.
  unfold mbind at 1, M_bind at 1. rewrite extract_bookmark_unfold.
  cbn [model system_prompt prompt_template].
  rewrite render_prompt_template.
  set (prompt := PROMPT_BEFORE_URL ++ url ++ PROMPT_AFTER_URL).
  destruct (response_text E tr DEFAULT_MODEL prompt SYSTEM_PROMPT) as [raw|e];
    [|by run; handlers].
  destruct (parse_response E raw) as [bookmark|e]; [|by run; handlers].
  destruct output_json;
    [destruct (rich_json E bookmark) as [e|]
    |destruct (panel bookmark) as [p|e]];
    (destruct dry_run;
     [|unfold get_api_token;
       destruct (getenv E (lit "PINBOARD_API_TOKEN")) as [[|c tok]|];
       [| destruct (copy bookmark) as [v|e'] eqn:Hv;
          [apply copy_returns in Hv; subst v|] |]]); run;
    repeat (match goal with
            | |- context [console_print E ?tr1 ?o] =>
                destruct (console_print E tr1 o)
            | |- context [publish ?pb bookmark ?tr2] =>
                destruct (publish pb bookmark tr2) as [[[]|?] ?]
            | |- context [isinstance_ValueError ?e] =>
                destruct (isinstance_ValueError e)
            | |- context [isinstance_Exception ?e] =>
                destruct (isinstance_Exception e)
            end; run);
    done.
Qed.

(** Extraction adds no call to [posts.add]. *)
Lemma extraction_events model_name url tr :
  ∃ new, snd (extraction E model_name url tr) = tr ++ new ∧ posts new = [].
Proof.
  rewrite extraction_unfold. destruct (get_model E model_name); simpl;
    [exists []; by rewrite app_nil_r | by eexists].
Qed.

(** Neither does the display of the bookmark. *)
Lemma show_events bookmark output_json tr :
  ∃ new,
    snd (show E bookmark output_json tr) = tr ++ new ∧ posts new = [].
Proof.
  unfold show.
  destruct output_json;
    [destruct (rich_json E bookmark)|destruct (panel bookmark)];
    run; handlers; (first [exists []; by rewrite app_nil_r | by eexists]).
Qed.

(** The [except] clauses of [add] end by raising, and add no call. *)
Lemma add_except_events e tr :
  ∃ e' new, add_except E e tr = (Raise e', tr ++ new) ∧ posts new = [].
Proof.
  unfold add_except.
  destruct (isinstance_ValueError e), (isinstance_Exception e);
    run; handlers; run;
    (first [eexists _, []; by rewrite app_nil_r | by eexists _, _]).
Qed.

(** The two ways [add] runs: it ends without running the adapter, with an
    exception unless it is a dry run; or it is no dry run, the extraction
    returned a dict or a list, the token is there, and the adapter is run
    on what was extracted. *)
Lemma add_shape url dry_run output_json private toread tr :
  ∃ new,
    posts new = []
    ∧ ((∃ out,
          (dry_run = true ∨ returned out = None)
          ∧ ∀ publish,
              add E publish url dry_run output_json private toread tr
              = (out, tr ++ new))
       ∨ (∃ bookmark,
            dry_run = false
            ∧ fst (extraction E DEFAULT_MODEL url tr) = Return bookmark
            ∧ truthy (getenv E (lit "PINBOARD_API_TOKEN")) = true
            ∧ copy bookmark = Return bookmark
            ∧ ∀ publish,
                add E publish url dry_run output_json private toread tr
                = match publish
                          {| token := getenv E (lit "PINBOARD_API_TOKEN") |}
                          bookmark (tr ++ new) with
                  | (Raise e, tr3) => add_except E e tr3
                  | (Return true, tr3) =>
                      match console_print E tr3 OutSaved with
                      | Some e => add_except E e tr3
                      | None => (Return tt, tr3 ++ [Print OutSaved])
                      end
                  | (Return false, tr3) =>
                      match console_print E tr3 OutFailedToSave with
                      | Some e => add_except E e tr3
                      | None =>
                          (Raise (SystemExit 1),
                           tr3 ++ [Print OutFailedToSave])
                      end
                  end)).
Proof.
  assert (∃ o tr1, extraction E DEFAULT_MODEL url tr = (o, tr1))
    as (o & tr1 & Hex) by (destruct (extraction E DEFAULT_MODEL url tr); eauto).
  destruct (extraction_events DEFAULT_MODEL url tr) as (n1 & H1 & Hp1).
  rewrite Hex in H1. simpl in H1. subst tr1.
  match goal with
  | |- ?G =>
      assert (Hends : ∀ e n2, posts n2 = [] →
        (∀ publish, add E publish url dry_run output_json private toread tr
                    = add_except E e (tr ++ n1 ++ n2)) → G)
  end.
  { intros e n2 Hp2 Hrun.
    destruct (add_except_events e (tr ++ n1 ++ n2)) as (e' & n3 & H3 & Hp3).
    exists (n1 ++ n2 ++ n3). split; [by rewrite !posts_app, Hp1, Hp2, Hp3|].
    left. exists (Raise e'). split; [by right|]. intros publish.
    rewrite Hrun, H3. by rewrite <- !app_assoc. }
  destruct o as [bookmark|e].
  2:{ apply (Hends e []); [done|]. intros publish.
      by rewrite add_unfold, Hex, app_nil_r. }
  assert (∃ o2 tr2, show E bookmark output_json (tr ++ n1) = (o2, tr2))
    as (o2 & tr2 & Hshow)
    by (destruct (show E bookmark output_json (tr ++ n1)); eauto).
  destruct (show_events bookmark output_json (tr ++ n1)) as (n2 & H2 & Hp2).
  rewrite Hshow in H2. simpl in H2. subst tr2.
  destruct o2 as [[]|e].
  2:{ apply (Hends e n2); [done|]. intros publish.
      by rewrite add_unfold, Hex, Hshow, <- app_assoc. }
  destruct dry_run.
  { destruct (console_print E ((tr ++ n1) ++ n2) OutDryRun) as [e|] eqn:Hprint.
    - apply (Hends e n2); [done|]. intros publish.
      by rewrite add_unfold, Hex, Hshow, Hprint, <- app_assoc.
    - exists (n1 ++ n2 ++ [Print OutDryRun]).
      split; [by rewrite !posts_app, Hp1, Hp2|].
      left. exists (Return tt). split; [by left|]. intros publish.
      by rewrite add_unfold, Hex, Hshow, Hprint, <- !app_assoc. }
  destruct (truthy (getenv E (lit "PINBOARD_API_TOKEN"))) eqn:Htoken.
  2:{ destruct (console_print E ((tr ++ n1) ++ n2) OutMissingToken)
        as [e|] eqn:Hprint.
      - apply (Hends e n2); [done|]. intros publish.
        by rewrite add_unfold, Hex, Hshow; cbv zeta;
          rewrite Htoken, Hprint, <- app_assoc.
      - exists (n1 ++ n2 ++ [Print OutMissingToken]).
        split; [by rewrite !posts_app, Hp1, Hp2|].
        left. exists (Raise (SystemExit 1)). split; [by right|].
        intros publish.
        by rewrite add_unfold, Hex, Hshow; cbv zeta;
          rewrite Htoken, Hprint, <- !app_assoc. }
  destruct (copy bookmark) as [v|e] eqn:Hcopy.
  2:{ apply (Hends e n2); [done|]. intros publish.
      by rewrite add_unfold, Hex, Hshow; cbv zeta;
        rewrite Htoken, Hcopy, <- app_assoc. }
  pose proof (copy_returns _ _ Hcopy) as ->.
  exists (n1 ++ n2). split; [by rewrite posts_app, Hp1, Hp2|].
  right. exists bookmark. rewrite Hex. repeat (split; [done|]).
  intros publish.
  by rewrite add_unfold, Hex, Hshow; cbv zeta;
    rewrite Htoken, Hcopy, <- app_assoc.
Qed.


(** The [except] clauses of [add] end by [sys.exit(1)], or by passing on
    what is no [Exception], when the terminal takes what is printed. *)
Lemma add_except_exit e tr :
  (∀ tr' o, console_print E tr' o = None) →
  ∃ e' tr', add_except E e tr = (Raise e', tr')
            ∧ isinstance_Exception e' = false.
Proof.
  intros Hconsole. unfold add_except.
  destruct (isinstance_ValueError e), (isinstance_Exception e) eqn:He;
    run; rewrite ?Hconsole; by eexists _, _.
Qed.

(** What makes [panel] raise is no [ValueError]. *)
Lemma panel_raises bookmark e :
  panel bookmark = Raise e →
  isinstance_ValueError e = false ∧ isinstance_Exception e = true.
Proof.
  destruct bookmark as [| | | | | |m]; try by intros [= <-].
  unfold panel. simpl.
  destruct (m !! lit "title"); [|by intros [= <-]].
  destruct (m !! lit "url"); [|by intros [= <-]].
  destruct (join _) eqn:Hjoin; [done|]. intros [= <-].
  unfold join in Hjoin. repeat case_match; by simplify_eq.
Qed.

(** Without a token in the environment, or with an empty one, [add] (no
    dry run) does not run the adapter and makes no call to [posts.add], and
    ends with an exception: [SystemExit(1)] after the message about the
    token, when the bookmark was extracted and shown. *)
Theorem add_without_token url output_json private toread tr :
  truthy (getenv E (lit "PINBOARD_API_TOKEN")) = false →
  ∃ e new,
    posts new = []
    ∧ (∀ publish,
         add E publish url false output_json private toread tr
         = (Raise e, tr ++ new))
    ∧ (∀ bookmark tr1 tr2,
         extraction E DEFAULT_MODEL url tr = (Return bookmark, tr1) →
         show E bookmark output_json tr1 = (Return tt, tr2) →
         console_print E tr2 OutMissingToken = None →
         e = SystemExit 1 ∧ tr ++ new = tr2 ++ [Print OutMissingToken]).
Proof.
  intros Htoken.
  destruct (add_shape url false output_json private toread tr)
    as (new & Hp & [(out & [[=]|Hout] & Hrun)|(b & _ & _ & Ht & _)]);
    [|congruence].
  destruct out as [|e]; [done|]. exists e, new. split; [done|].
  split; [done|]. intros b tr1 tr2 Hex Hshow Hprint.
  specialize (Hrun (λ _ _, mret true)).
  rewrite add_unfold, Hex, Hshow in Hrun. cbv zeta in Hrun.
  rewrite Htoken, Hprint in Hrun. by injection Hrun as <- <-.
Qed.

(** [add] returns normally only from a dry run, or after the adapter
    returned true for the bookmark extracted, called with the token of the
    environment; the last thing printed is then the success message. *)
Theorem add_returns publish url dry_run output_json private toread tr :
  fst (add E publish url dry_run output_json private toread tr) = Return tt →
  dry_run = true
  ∨ ∃ bookmark tr2 tr3,
      fst (extraction E DEFAULT_MODEL url tr) = Return bookmark
      ∧ truthy (getenv E (lit "PINBOARD_API_TOKEN")) = true
      ∧ publish {| token := getenv E (lit "PINBOARD_API_TOKEN") |} bookmark tr2
        = (Return true, tr3)
      ∧ snd (add E publish url dry_run output_json private toread tr)
        = tr3 ++ [Print OutSaved].
Proof.
  intros Hret.
  destruct (add_shape url dry_run output_json private toread tr)
    as (new & Hp & [(out & [->|Hout] & Hrun)
                   |(b & -> & Hex & Htok & Hcopy & Hrun)]).
  - by left.
  - rewrite Hrun in Hret. simpl in Hret. by subst out.
  - right. rewrite Hrun in Hret |- *.
    destruct (publish _ b (tr ++ new)) as [[[]|e] tr3] eqn:Hpub.
    + destruct (console_print E tr3 OutSaved) as [e|].
      * destruct (add_except_events e tr3) as (e' & n & He & _).
        by rewrite He in Hret.
      * by exists b, (tr ++ new), tr3.
    + destruct (console_print E tr3 OutFailedToSave) as [e|]; [|done].
      destruct (add_except_events e tr3) as (e' & n & He & _).
      by rewrite He in Hret.
    + destruct (add_except_events e tr3) as (e' & n & He & _).
      by rewrite He in Hret.
Qed.

(** When the terminal takes what is printed, [add] lets no [Exception]
    out: it returns, or ends with [SystemExit] or something else that is no
    [Exception], whatever the collaborators and the adapter raise. *)
Theorem add_catches publish url dry_run output_json private toread tr :
  (∀ tr' o, console_print E tr' o = None) →
  match fst (add E publish url dry_run output_json private toread tr) with
  | Return _ => True
  | Raise e => isinstance_Exception e = false
  end.
Proof.
  intros Hconsole.
  assert (Hexc : ∀ e tr1,
    match fst (add_except E e tr1) with
    | Return _ => True
    | Raise e' => isinstance_Exception e' = false
    end).
  { intros e tr1.
    by destruct (add_except_exit e tr1 Hconsole) as (e' & tr' & -> & ?). }
  rewrite add_unfold.
  destruct (extraction E DEFAULT_MODEL url tr) as [[b|e] tr1]; [|apply Hexc].
  destruct (show E b output_json tr1) as [[[]|e] tr2]; [|apply Hexc].
  destruct dry_run; [by rewrite Hconsole|]. cbv zeta.
  destruct (truthy _); [|by rewrite Hconsole].
  destruct (copy b); [|apply Hexc].
  destruct (publish _ b tr2) as [[[]|e] tr3];
    rewrite ?Hconsole; first [done|apply Hexc].
Qed.

(** With the adapter of [main.py], [add] makes at most one call to
    [posts.add], and only when it is no dry run, the token of the
    environment is there and not empty, and what was extracted is a dict
    with a "url" and a "title": the call is made with that token and with
    the fields of the dict. *)
Theorem add_publishes_dicts url dry_run output_json private toread tr :
  ∃ new,
    snd (add E (add_bookmark_from_json E) url dry_run output_json private
           toread tr) = tr ++ new
    ∧ (posts new = []
       ∨ ∃ m u t,
           dry_run = false
           ∧ truthy (getenv E (lit "PINBOARD_API_TOKEN")) = true
           ∧ fst (extraction E DEFAULT_MODEL url tr) = Return (JObj m)
           ∧ m !! lit "url" = Some u
           ∧ m !! lit "title" = Some t
           ∧ posts new
             = [({| token := getenv E (lit "PINBOARD_API_TOKEN") |},
                 {| PostsAdd.url := u;
                    PostsAdd.description := t;
                    PostsAdd.extended :=
                      default (JStr []) (m !! lit "description");
                    PostsAdd.tags := default (JArr []) (m !! lit "tags");
                    PostsAdd.shared := true;
                    PostsAdd.toread := false |})]).
Proof.
  destruct (add_shape url dry_run output_json private toread tr)
    as (new & Hp & [(out & _ & Hrun)
                   |(b & -> & Hex & Htok & Hcopy & Hrun)]).
  { exists new. rewrite Hrun. by split; [|left]. }
  rewrite Hrun.
  set (pb := {| token := getenv E (lit "PINBOARD_API_TOKEN") |}).
  assert (Hraise : ∀ e n, posts n = [] →
    ∃ new0, snd (add_except E e (tr ++ new ++ n)) = tr ++ new0
            ∧ posts new0 = []).
  { intros e n Hn.
    destruct (add_except_events e (tr ++ new ++ n)) as (e' & n' & -> & Hn').
    exists (new ++ n ++ n'). rewrite <- !app_assoc. split; [done|].
    by rewrite !posts_app, Hp, Hn, Hn'. }
  assert (Hnone : ∀ e,
    add_bookmark_from_json E pb b (tr ++ new) = (Raise e, tr ++ new) →
    ∃ new0,
      snd (match add_bookmark_from_json E pb b (tr ++ new) with
           | (Raise e, tr3) => add_except E e tr3
           | (Return true, tr3) =>
               match console_print E tr3 OutSaved with
               | Some e => add_except E e tr3
               | None => (Return tt, tr3 ++ [Print OutSaved])
               end
           | (Return false, tr3) =>
               match console_print E tr3 OutFailedToSave with
               | Some e => add_except E e tr3
               | None => (Raise (SystemExit 1), tr3 ++ [Print OutFailedToSave])
               end
           end) = tr ++ new0
      ∧ posts new0 = []).
  { intros e ->. destruct (Hraise e []) as (new0 & H0 & Hp0); [done|].
    rewrite app_nil_r in H0. by exists new0. }
  destruct b as [| | | | |l|m]; try done.
  { destruct (Hnone TypeError) as (new0 & ? & ?); [done|].
    exists new0. by split; [|left]. }
  rewrite add_bookmark_from_json_dict in Hnone |- *.
  destruct (m !! lit "url") as [u|] eqn:Hu.
  2:{ destruct (Hnone (KeyError (lit "url"))) as (new0 & ? & ?); [done|].
      exists new0. by split; [|left]. }
  destruct (m !! lit "title") as [t|] eqn:Ht.
  2:{ destruct (Hnone (KeyError (lit "title"))) as (new0 & ? & ?); [done|].
      exists new0. by split; [|left]. }
  clear Hnone. cbv zeta.
  set (args := {| PostsAdd.url := u |}).
  assert (Hcall : posts (new ++ [Post pb args]) = [(pb, args)])
    by by rewrite posts_app, Hp.
  assert (Hraise' : ∀ e,
    ∃ new0, snd (add_except E e ((tr ++ new) ++ [Post pb args])) = tr ++ new0
            ∧ posts new0 = [(pb, args)]).
  { intros e.
    destruct (add_except_events e ((tr ++ new) ++ [Post pb args]))
      as (e' & n' & -> & Hn').
    exists (new ++ [Post pb args] ++ n'). rewrite <- !app_assoc.
    split; [done|]. rewrite app_assoc, posts_app, Hcall, Hn'. done. }
  assert (Hprint : ∀ (out : outcome unit) o,
    ∃ new0, snd (out, ((tr ++ new) ++ [Post pb args]) ++ [Print o])
            = tr ++ new0
            ∧ posts new0 = [(pb, args)]).
  { intros out o. exists (new ++ [Post pb args] ++ [Print o]).
    rewrite <- !app_assoc. split; [done|].
    by rewrite app_assoc, posts_app, Hcall. }
  assert (∃ new0,
    snd (match (posts_add E (tr ++ new) pb args,
                (tr ++ new) ++ [Post pb args]) with
         | (Raise e, tr3) => add_except E e tr3
         | (Return true, tr3) =>
             match console_print E tr3 OutSaved with
             | Some e => add_except E e tr3
             | None => (Return tt, tr3 ++ [Print OutSaved])
             end
         | (Return false, tr3) =>
             match console_print E tr3 OutFailedToSave with
             | Some e => add_except E e tr3
             | None => (Raise (SystemExit 1), tr3 ++ [Print OutFailedToSave])
             end
         end) = tr ++ new0
    ∧ posts new0 = [(pb, args)]) as (new0 & Hnew0 & Hposts0).
  { destruct (posts_add E (tr ++ new) pb args) as [[]|e];
      [destruct (console_print E _ OutSaved)
      |destruct (console_print E _ OutFailedToSave)|];
      first [apply Hraise'|apply Hprint]. }
  exists new0. split; [done|]. right. exists m, u, t. by rewrite Hex.
Qed.

(** In panel mode, a bookmark that is no dict with a "title", a "url" and
    tags that can be joined ends [add] before the token is read and before
    the adapter is run, dry run or not: what [panel] raised is no
    [ValueError], so it is reported as an unexpected error, and [add] ends
    with [SystemExit(1)]. *)
Theorem add_panel_incomplete url dry_run private toread tr bookmark :
  fst (extraction E DEFAULT_MODEL url tr) = Return bookmark →
  (∀ m title url',
     bookmark = JObj m →
     m !! lit "title" = Some title →
     m !! lit "url" = Some url' →
     join (default (JArr []) (m !! lit "tags")) = Raise TypeError) →
  ∃ cause e new,
    posts new = []
    ∧ isinstance_ValueError cause = false
    ∧ (∀ publish,
         add E publish url dry_run false private toread tr
         = (Raise e, tr ++ new))
    ∧ (console_print E (snd (extraction E DEFAULT_MODEL url tr))
         (OutUnexpectedError cause) = None →
       e = SystemExit 1
       ∧ tr ++ new = snd (extraction E DEFAULT_MODEL url tr)
                     ++ [Print (OutUnexpectedError cause)]).
Proof.
  intros Hex Hbad.
  assert (∃ cause, panel bookmark = Raise cause) as [cause Hpanel].
  { destruct bookmark as [| | | | | |m]; try by eexists.
    unfold panel. simpl.
    destruct (m !! lit "title") as [t|] eqn:Ht; [|by eexists].
    destruct (m !! lit "url") as [u|] eqn:Hu; [|by eexists].
    rewrite (Hbad m t u); by eauto. }
  destruct (panel_raises _ _ Hpanel) as [Hv Hexc].
  destruct (extraction E DEFAULT_MODEL url tr) as [o tr1] eqn:Hrun.
  simpl in Hex. subst o.
  destruct (extraction_events DEFAULT_MODEL url tr) as (n1 & H1 & Hp1).
  rewrite Hrun in H1. simpl in H1. subst tr1. cbn [snd].
  assert (Hadd : ∀ publish,
    add E publish url dry_run false private toread tr
    = match console_print E (tr ++ n1) (OutUnexpectedError cause) with
      | Some e0 => (Raise e0, tr ++ n1)
      | None => (Raise (SystemExit 1),
                 (tr ++ n1) ++ [Print (OutUnexpectedError cause)])
      end).
  { intros publish. rewrite add_unfold, Hrun. unfold show, add_except.
    run. rewrite Hpanel. simpl. rewrite Hv, Hexc.
    by destruct (console_print E (tr ++ n1) (OutUnexpectedError cause)). }
  exists cause.
  destruct (console_print E (tr ++ n1) (OutUnexpectedError cause)) as [e0|].
  - exists e0, n1. by repeat split.
  - exists (SystemExit 1), (n1 ++ [Print (OutUnexpectedError cause)]).
    rewrite posts_app, Hp1, app_assoc. by repeat split.
Qed.

(** A [ValueError] raised while the bookmark is saved is reported as an
    error of the extraction: [add] prints the message of the first [except]
    clause and ends with [SystemExit(1)]. *)
Theorem add_publish_value_error publish url output_json private toread tr
    bookmark tr1 tr2 tr3 e :
  extraction E DEFAULT_MODEL url tr = (Return bookmark, tr1) →
  show E bookmark output_json tr1 = (Return tt, tr2) →
  truthy (getenv E (lit "PINBOARD_API_TOKEN")) = true →
  publish {| token := getenv E (lit "PINBOARD_API_TOKEN") |} bookmark tr2
  = (Raise e, tr3) →
  isinstance_ValueError e = true →
  console_print E tr3 (OutExtractionError e) = None →
  is_Some (returned (copy bookmark)) →
  add E publish url false output_json private toread tr
  = (Raise (SystemExit 1), tr3 ++ [Print (OutExtractionError e)]).
Proof.
  intros Hex Hshow Htoken Hpublish He Hprint [v Hcopy].
  rewrite add_unfold, Hex, Hshow. cbv zeta. rewrite Htoken.
  destruct (copy bookmark); [|done].
  rewrite Hpublish. unfold add_except. rewrite He. run. by rewrite Hprint.
Qed.

(** Extraction prints nothing and makes no call to [posts.add]. *)
Lemma extraction_prints_nothing model_name url tr :
  ∃ new,
    snd (extraction E model_name url tr) = tr ++ new
    ∧ posts new = []
    ∧ ∀ o, Print o ∉ new.
Proof.
  rewrite extraction_unfold. destruct (get_model E model_name); simpl.
  - exists []. rewrite app_nil_r. split; [done|]. split; [done|].
    intros o. apply not_elem_of_nil.
  - eexists. split; [done|]. split; [done|].
    intros o Hin. apply list_elem_of_singleton in Hin. discriminate.
Qed.

(** With [--json], when the constructor of rich's [JSON] raises for the
    bookmark, as it does for the keyword [data] of the source, [add] ends
    there, dry run or not: the bookmark is not shown, the token is not
    read, the adapter is not run.  The [TypeError] of the constructor is
    reported as an unexpected error, and [add] ends with
    [SystemExit(1)]. *)
Theorem add_json_rejected url dry_run private toread tr bookmark e :
  fst (extraction E DEFAULT_MODEL url tr) = Return bookmark →
  rich_json E bookmark = Some e →
  ∃ out new,
    posts new = []
    ∧ (∀ publish,
         add E publish url dry_run true private toread tr
         = (Raise out, tr ++ new))
    ∧ (∀ o, Print o ∈ new → o ≠ OutJSON bookmark ∧ o ≠ OutDryRun)
    ∧ (isinstance_ValueError e = false →
       isinstance_Exception e = true →
       console_print E (snd (extraction E DEFAULT_MODEL url tr))
         (OutUnexpectedError e) = None →
       out = SystemExit 1
       ∧ tr ++ new = snd (extraction E DEFAULT_MODEL url tr)
                     ++ [Print (OutUnexpectedError e)]).
Proof.
  intros Hex Hrich.
  destruct (extraction E DEFAULT_MODEL url tr) as [o tr1] eqn:Hrun.
  simpl in Hex. subst o.
  destruct (extraction_prints_nothing DEFAULT_MODEL url tr)
    as (n1 & H1 & Hp1 & Hn1).
  rewrite Hrun in H1. simpl in H1. subst tr1. cbn [snd].
  assert (Hadd : ∀ publish,
    add E publish url dry_run true private toread tr
    = add_except E e (tr ++ n1)).
  { intros publish. rewrite add_unfold, Hrun. unfold show.
    by rewrite Hrich. }
  assert (Hold : ∀ o, Print o ∈ n1 → o ≠ OutJSON bookmark ∧ o ≠ OutDryRun)
    by (intros o Hin; by destruct (Hn1 o)).
  assert (Hend : ∀ o', o' ≠ OutJSON bookmark → o' ≠ OutDryRun →
    ∀ o, Print o ∈ n1 ++ [Print o'] → o ≠ OutJSON bookmark ∧ o ≠ OutDryRun).
  { intros o' ? ? o [Hin|Hin]%elem_of_app; [by apply Hold|].
    apply list_elem_of_singleton in Hin. by injection Hin as ->. }
  unfold add_except in Hadd.
  destruct (isinstance_ValueError e) eqn:Hv;
    [|destruct (isinstance_Exception e) eqn:Hexc]; revert Hadd; run.
  - destruct (console_print E (tr ++ n1) (OutExtractionError e)) as [e0|];
      intros Hadd.
    + exists e0, n1. split; [done|]. split; [done|]. split; [done|].
      intros; congruence.
    + exists (SystemExit 1), (n1 ++ [Print (OutExtractionError e)]).
      split; [by rewrite posts_app, Hp1|].
      split; [intros publish; by rewrite Hadd, app_assoc|].
      split; [by apply Hend|]. intros; congruence.
  - destruct (console_print E (tr ++ n1) (OutUnexpectedError e))
      as [e0|] eqn:Hprint; intros Hadd.
    + exists e0, n1. split; [done|]. split; [done|]. split; [done|].
      intros; congruence.
    + exists (SystemExit 1), (n1 ++ [Print (OutUnexpectedError e)]).
      split; [by rewrite posts_app, Hp1|].
      split; [intros publish; by rewrite Hadd, app_assoc|].
      split; [by apply Hend|]. by rewrite app_assoc.
  - intros Hadd. exists e, n1. split; [done|]. split; [done|].
    split; [done|]. intros; congruence.
Qed.

End CommandFacts.

(** With [--dry-run], [add] does not run the adapter and makes no call to
    [posts.add]: the run is the same whatever the adapter, the token in the
    environment, the service and the other options are. *)
Theorem add_dry_run (E : Env) url output_json tr :
  ∃ out new,
    posts new = []
    ∧ ∀ getenv' posts_add' publish private toread,
        add (with_service getenv' posts_add' E) publish url true output_json
          private toread tr
        = (out, tr ++ new).
Proof.
  destruct (add_shape E url true output_json false false tr)
    as (new & Hp & [(out & _ & Hrun)|(b & [=] & _)]).
  exists out, new. split; [done|].
  intros getenv' posts_add' publish private toread.
  rewrite <- (Hrun publish). by rewrite !add_unfold.
Qed.


(** ** Responses that are no JSON *)

(** The scanner fails at once on a text no value starts. *)
Lemma scan_once_no_value depth c rest idx :
  starts_no_value (c :: rest) = true →
  Decoder.scan_once (S depth) (c :: rest) idx
  = Decoder.Fail Decoder.expecting_value idx.
Proof.
  intros Hstart.
  assert (Hdigit : Decoder.is_digit c = false).
  { unfold starts_no_value in Hstart. apply negb_true_iff in Hstart.
    repeat (apply orb_false_iff in Hstart as [Hstart ?]). done. }
  cbn [Decoder.scan_once].
  unfold Decoder.keyword, Decoder.match_number, Decoder.match_integer.
  repeat match goal with
         | |- context [lit ?k] =>
             let v := eval vm_compute in (lit k) in change (lit k) with v
         end.
  cbn [startswith].
  repeat (match goal with
          | |- context [(c =? ?k)%N] =>
              destruct (N.eqb_spec c k) as [->|?]; [by vm_compute in Hstart|]
          | |- context [(?k =? c)%N] =>
              destruct (N.eqb_spec k c) as [<-|?]; [by vm_compute in Hstart|]
          end; cbn [andb]).
  by rewrite Hdigit.
Qed.

(** A response that is blank, or whose first character after stripping can
    start no JSON value (a code fence, most prose), is rejected with
    [ValueError]: the decoder's message is "Expecting value" at line 1,
    column 1, whatever whitespace came first, and the response is quoted as
    it was received. *)
Theorem parse_response_expecting_value (E : Env) raw :
  loads E (strip raw) = json_loads (strip raw) →
  starts_no_value (strip raw) = true →
  parse_response E raw = Raise (expecting_value_error raw).
Proof.
  intros Hloads Hstart. unfold parse_response. rewrite Hloads.
  destruct (strip raw) as [|c rest]; [by vm_compute|].
  assert (Hws : Decoder.is_ws c = false).
  { unfold starts_no_value in Hstart.
    destruct (Decoder.is_ws c); [by simpl in Hstart|done]. }
  unfold json_loads, Decoder.decode, startswith.
  destruct (N.eqb_spec 65279 c) as [<-|_]; [by vm_compute in Hstart|].
  cbn [andb Decoder.skip_ws]. rewrite Hws.
  replace (2 * length (c :: rest) + 1) with (S (2 * length (c :: rest)))
    by lia.
  rewrite scan_once_no_value by done.
  by vm_compute.
Qed.

(** ** Further runs *)

(** With no file in either place, [config] prints the line about no
    files, and no file line. *)
Lemma config_no_files_witness :
  ∃ new,
    snd (config (config_scenario (Some example_token) false false) [])
    = [] ++ new
    ∧ (NoFiles ∈ new →
       ∀ path, (LocalFile path ∉ new) ∧ (HomeFile path ∉ new)).
Proof.
  by apply (config_no_files (config_scenario (Some example_token) false false)
              []).
Defined.

(** Without a token, [add] shows the bookmark and the message about the
    token, and exits with status 1. *)
Lemma add_without_token_witness :
  ∃ e new,
    posts new = []
    ∧ (∀ publish,
         add (scenario response_minimal true None) publish example_url false
           false false false []
         = (Raise e, [] ++ new))
    ∧ (∀ bookmark tr1 tr2,
         extraction (scenario response_minimal true None) DEFAULT_MODEL
           example_url [] = (Return bookmark, tr1) →
         show (scenario response_minimal true None) bookmark false tr1
         = (Return tt, tr2) →
         console_print (scenario response_minimal true None) tr2
           OutMissingToken = None →
         e = SystemExit 1 ∧ [] ++ new = tr2 ++ [Print OutMissingToken]).
Proof.
  by apply (add_without_token (scenario response_minimal true None)
              example_url false false false []).
Defined.

(** A run of [add] that returns: the service answered true. *)
Lemma add_returns_witness :
  false = true
  ∨ ∃ bookmark tr2 tr3,
      fst (extraction (scenario response_minimal true (Some example_token))
             DEFAULT_MODEL example_url []) = Return bookmark
      ∧ truthy (getenv (scenario response_minimal true (Some example_token))
                  (lit "PINBOARD_API_TOKEN")) = true
      ∧ add_bookmark_from_json
          (scenario response_minimal true (Some example_token))
          {| token := getenv
                        (scenario response_minimal true (Some example_token))
                        (lit "PINBOARD_API_TOKEN") |} bookmark tr2
        = (Return true, tr3)
      ∧ snd (add (scenario response_minimal true (Some example_token))
               (add_bookmark_from_json
                  (scenario response_minimal true (Some example_token)))
               example_url false false false false [])
        = tr3 ++ [Print OutSaved].
Proof.
  apply (add_returns (scenario response_minimal true (Some example_token))
           (add_bookmark_from_json
              (scenario response_minimal true (Some example_token)))
           example_url false false false false []).
  by vm_compute.
Defined.

(** A run of [add] in which the service answers false: the command ends
    with [SystemExit], which is no [Exception]. *)
Lemma add_catches_witness :
  match fst (add (scenario response_minimal false (Some example_token))
               (add_bookmark_from_json
                  (scenario response_minimal false (Some example_token)))
               example_url false false false false []) with
  | Return _ => True
  | Raise e => isinstance_Exception e = false
  end.
Proof.
  by apply (add_catches (scenario response_minimal false (Some example_token))).
Defined.

(** Tags that are numbers: in panel mode [add] ends on the [TypeError] of
    joining them, and nothing is published. *)
Lemma add_panel_incomplete_witness :
  ∃ cause e new,
    posts new = []
    ∧ isinstance_ValueError cause = false
    ∧ (∀ publish,
         add (scenario response_number_tags true (Some example_token)) publish
           example_url false false false false []
         = (Raise e, [] ++ new))
    ∧ (console_print (scenario response_number_tags true (Some example_token))
         (snd (extraction
                 (scenario response_number_tags true (Some example_token))
                 DEFAULT_MODEL example_url []))
         (OutUnexpectedError cause) = None →
       e = SystemExit 1
       ∧ [] ++ new
         = snd (extraction
                  (scenario response_number_tags true (Some example_token))
                  DEFAULT_MODEL example_url [])
           ++ [Print (OutUnexpectedError cause)]).
Proof.
  apply (add_panel_incomplete
           (scenario response_number_tags true (Some example_token))
           example_url false false false [] (JObj record_number_tags)).
  - by vm_compute.
  - intros m title url' [= <-] _ _. by vm_compute.
Defined.

(** The service rejects the call with a [ValueError]: [add], in panel
    mode, reports an error of the extraction. *)
Lemma add_publish_value_error_witness :
  ∃ tr3,
    add rejecting_service (add_bookmark_from_json rejecting_service)
      example_url false false false false []
    = (Raise (SystemExit 1),
       tr3 ++ [Print (OutExtractionError (ValueError (lit "invalid url")))]).
Proof.
  eexists.
  eapply (add_publish_value_error rejecting_service
            (add_bookmark_from_json rejecting_service) example_url false
            false false []);
    try (vm_compute; reflexivity).
  by eexists.
Defined.

(** A response inside a code fence is rejected, and quoted as received. *)
Lemma parse_response_expecting_value_witness :
  parse_response (scenario response_fenced true None) response_fenced
  = Raise (expecting_value_error response_fenced).
Proof.
  by apply (parse_response_expecting_value
              (scenario response_fenced true None) response_fenced).
Defined.

(** [add --json] on a response with a title and a url: the constructor of
    [JSON] raises, nothing is shown or published. *)
Lemma add_json_rejected_witness :
  ∃ out new,
    posts new = []
    ∧ (∀ publish,
         add (scenario response_minimal true (Some example_token)) publish
           example_url false true false false []
         = (Raise out, [] ++ new))
    ∧ (∀ o, Print o ∈ new → o ≠ OutJSON (JObj record_minimal) ∧ o ≠ OutDryRun)
    ∧ (isinstance_ValueError TypeError = false →
       isinstance_Exception TypeError = true →
       console_print (scenario response_minimal true (Some example_token))
         (snd (extraction (scenario response_minimal true (Some example_token))
                 DEFAULT_MODEL example_url []))
         (OutUnexpectedError TypeError) = None →
       out = SystemExit 1
       ∧ [] ++ new
         = snd (extraction (scenario response_minimal true (Some example_token))
                  DEFAULT_MODEL example_url [])
           ++ [Print (OutUnexpectedError TypeError)]).
Proof.
  apply (add_json_rejected (scenario response_minimal true (Some example_token))
           example_url false false false [] (JObj record_minimal) TypeError);
    by vm_compute.
Defined.
